(** * midi-mcp-server: the create_midi tool, from composition to MIDI file

    A shallow embedding of [src/index.ts]: the normalisation done by the
    [create_midi] request handler (numeric durations, the legacy [time]
    alias), [noteToMidiNumber], [convertBeatToWait] and [createMidiFile]
    (the calls made on midi-writer-js tracks, the resolution of the output
    path and the write).

    JavaScript numbers are IEEE 754 binary64 values: they are Rocq's
    primitive [float]s, and the operations the server uses that are not
    primitive ([Math.round], [%], the number-to-string conversion of a
    template literal) are written out over the exact value [m * 2^e] of a
    float. Node's [path] functions (POSIX flavour), [process.env],
    [os.tmpdir] and the part of [fs] the server touches are modelled next to
    them; midi-writer-js is a black box, a track being the list of calls the
    server makes on it.

    The request handler itself works on what [JSON.parse] returns, before
    anything has the types of [MidiComposition]: it is embedded over
    [JsValue], with the order of its checks, its two passes changing objects
    key by key, and the notifications it sends; [processMidiComposition] and
    [chunkArray] are embedded with it. *)

From Stdlib Require Import ZArith QArith Qround Qabs Uint63 Floats.
From Stdlib Require Import Ascii String DecimalString.
From stdpp Require Import gmap strings list.

Set Warnings "-inexact-float".

(** ** ECMAScript numbers *)

Module JS.

Local Open Scope Z_scope.

(** The float of an integer; exact for [|n| <= 2^53]. *)
Definition Number_of_Z (n : Z) : float :=
  match n with
  | Z0 => 0%float
  | Zpos _ => of_uint63 (Uint63.of_Z n)
  | Zneg p => (- of_uint63 (Uint63.of_Z (Zpos p)))%float
  end.

(** [ToBoolean] on a number: [+0], [-0] and [NaN] are falsy. *)
Definition ToBoolean (x : float) : bool :=
  negb (is_zero x || is_nan x).

(** [a || b] on numbers. *)
Definition or_else (a b : float) : float :=
  if ToBoolean a then a else b.

(** [x === y] on numbers: IEEE equality ([NaN] differs from itself, the two
    zeros are equal). *)
Definition strict_eq (x y : float) : bool := PrimFloat.eqb x y.

(** [Math.round]: the integer nearest to [x], ties towards +Infinity
    ([floor (x + 1/2)] computed exactly); NaN, the infinities, the zeros and
    the floats that are already integers are returned as they are, and a
    negative [x >= -0.5] gives [-0]. *)
Definition Math_round (x : float) : float :=
  match Prim2SF x with
  | S754_finite s m e =>
      if 0 <=? e then x
      else
        let sm := if s then Zneg m else Zpos m in
        let n := (2 * sm + 2 ^ (- e)) / 2 ^ (1 - e) in
        if n =? 0 then (if s then (-0)%float else 0%float) else Number_of_Z n
  | _ => x
  end.

(** [x % y]: the remainder of the truncating division, with the sign of the
    dividend; it is always exact. *)
Definition Number_rem (x y : float) : float :=
  match Prim2SF x, Prim2SF y with
  | S754_nan, _ | _, S754_nan => nan
  | S754_infinity _, _ => nan
  | _, S754_zero _ => nan
  | _, S754_infinity _ => x
  | S754_zero _, _ => x
  | S754_finite s mx ex, S754_finite _ my ey =>
      let e := Z.min ex ey in
      match (Zpos mx * 2 ^ (ex - e)) mod (Zpos my * 2 ^ (ey - e)) with
      | Zpos r => SF2Prim (S754_finite s r e)
      | _ => if s then (-0)%float else 0%float
      end
  end.

(** [Number.isInteger]: a zero, or a finite float [m * 2^e] whose value is
    a whole number. *)
Definition Number_isInteger (x : float) : bool :=
  match Prim2SF x with
  | S754_zero _ => true
  | S754_finite _ m e => (0 <=? e) || (Zpos m mod 2 ^ (- e) =? 0)
  | _ => false
  end.

(** *** Number::toString (radix 10) *)

Definition digits_of_Z (n : Z) : string :=
  NilZero.string_of_uint (N.to_uint (Z.to_N n)).

Definition pow2Q (e : Z) : Q :=
  if 0 <=? e then inject_Z (2 ^ e) else Qinv (inject_Z (2 ^ (- e))).

Definition pow10Q (e : Z) : Q :=
  if 0 <=? e then inject_Z (10 ^ e) else Qinv (inject_Z (10 ^ (- e))).

Definition Qlt_bool (a b : Q) : bool := negb (Qle_bool b a).

(** The reals that round to the double [m * 2^e] (round to nearest, ties to
    even): the interval between the midpoints to its two neighbours, closed
    when [m] is even. *)
Definition roundsTo (m : positive) (e : Z) (q : Q) : bool :=
  let hi := (inject_Z (2 * Zpos m + 1) * pow2Q (e - 1))%Q in
  let lo := if (Zpos m =? 2 ^ 52) && (-1074 <? e)
            then (inject_Z (4 * Zpos m - 1) * pow2Q (e - 2))%Q
            else (inject_Z (2 * Zpos m - 1) * pow2Q (e - 1))%Q in
  if Z.even (Zpos m) then Qle_bool lo q && Qle_bool q hi
  else Qlt_bool lo q && Qlt_bool q hi.

(** The least exponent from [n] upwards with [v < 10^n]. *)
Fixpoint decimalExponent (fuel : nat) (n : Z) (v : Q) : Z :=
  match fuel with
  | O => n
  | S fuel' =>
      if Qlt_bool v (pow10Q n) then n else decimalExponent fuel' (n + 1) v
  end.

(** The pairs [(n, s)] with [k] digits in [s] whose value [s * 10^(n-k)]
    rounds to [m * 2^e]. *)
Definition candidates (m : positive) (e : Z) (N k : Z) : list (Z * Z) :=
  let v := (inject_Z (Zpos m) * pow2Q e)%Q in
  flat_map (fun n =>
    let scale := pow10Q (n - k) in
    let s0 := Qfloor (v / scale) in
    List.filter (fun ns : Z * Z =>
              (10 ^ (k - 1) <=? snd ns) && (snd ns <? 10 ^ k)
              && roundsTo m e (inject_Z (snd ns) * scale))
           [(n, s0); (n, s0 + 1)]) [N; N + 1].

Definition closer (v : Q) (k : Z) (a b : Z * Z) : Z * Z :=
  let da := Qabs (inject_Z (snd a) * pow10Q (fst a - k) - v) in
  let db := Qabs (inject_Z (snd b) * pow10Q (fst b - k) - v) in
  if Qlt_bool da db then a
  else if Qlt_bool db da then b
  else if Z.even (snd a) then a else b.

(** The shortest digit string: the least [k], and for it the [(n, s)]
    nearest to the value. *)
Fixpoint shortest (fuel : nat) (m : positive) (e : Z) (N k : Z) : Z * Z * Z :=
  match fuel with
  | O => (N, k, 0)
  | S fuel' =>
      match candidates m e N k with
      | [] => shortest fuel' m e N (k + 1)
      | c :: cs =>
          let best := fold_left (closer (inject_Z (Zpos m) * pow2Q e) k) cs c in
          (fst best, k, snd best)
      end
  end.

Definition zeros (n : Z) : string :=
  String.string_of_list_ascii (repeat "0"%char (Z.to_nat n)).

Definition formatDecimal (n k s : Z) : string :=
  let d := digits_of_Z s in
  if (k <=? n) && (n <=? 21) then d +:+ zeros (n - k)
  else if (0 <? n) && (n <=? 21) then
    String.substring 0 (Z.to_nat n) d +:+ "." +:+
    String.substring (Z.to_nat n) (Z.to_nat (k - n)) d
  else if (-6 <? n) && (n <=? 0) then "0." +:+ zeros (- n) +:+ d
  else
    let ex := n - 1 in
    let mant := if k =? 1 then d
                else String.substring 0 1 d +:+ "." +:+ String.substring 1 (Z.to_nat (k - 1)) d in
    mant +:+ "e" +:+ (if ex <? 0 then "-" else "+") +:+ digits_of_Z (Z.abs ex).

(** The string of a number, as a template literal inserts it. *)
Definition Number_toString (x : float) : string :=
  match Prim2SF x with
  | S754_nan => "NaN"
  | S754_zero _ => "0"
  | S754_infinity s => if s then "-Infinity" else "Infinity"
  | S754_finite s m e =>
      let v := (inject_Z (Zpos m) * pow2Q e)%Q in
      let N := decimalExponent 8 ((Z.log2 (Zpos m) + e) * 30103 / 100000 - 1) v in
      let '(n, k, d) := shortest 17 m e N 1 in
      (if s then "-" else "") +:+ formatDecimal n k d
  end.

End JS.

(** ** Node.js: [path] (POSIX), [process.env], [os], [fs] *)

Module Path.

Definition isSep (c : ascii) : bool := Ascii.eqb c "/".

(** [path.isAbsolute]: the path starts with a slash. *)
Definition isAbsolute (p : string) : bool :=
  match p with
  | String c _ => isSep c
  | EmptyString => false
  end.

Fixpoint dropSeps (l : list ascii) : list ascii :=
  match l with
  | c :: l' => if isSep c then dropSeps l' else l
  | [] => []
  end.

Fixpoint takeName (l : list ascii) : list ascii :=
  match l with
  | c :: l' => if isSep c then [] else c :: takeName l'
  | [] => []
  end.

Fixpoint dropName (l : list ascii) : list ascii :=
  match l with
  | c :: l' => if isSep c then l else dropName l'
  | [] => []
  end.

(** [path.basename]: scanning from the end, the trailing slashes are
    skipped and the characters up to the next slash are the result. *)
Definition basename (p : string) : string :=
  string_of_list_ascii
    (rev (takeName (dropSeps (rev (list_ascii_of_string p))))).

(** [path.dirname]: the scan runs from the end down to index 1; it skips the
    trailing slashes and the base name, and the path before the slash it
    stops at is the result. Without such a slash the result is ["/"] for a
    rooted path and ["."] otherwise. *)
Definition dirname (p : string) : string :=
  match p with
  | EmptyString => "."
  | String c0 rest =>
      match dropName (dropSeps (rev (list_ascii_of_string rest))) with
      | [] => if isSep c0 then "/" else "."
      | _ :: before =>
          if isSep c0 && bool_decide (before = []) then "//"
          else String c0 (string_of_list_ascii (rev before))
      end
  end.

Fixpoint split (p : string) : list string :=
  match p with
  | EmptyString => [EmptyString]
  | String c p' =>
      if isSep c then EmptyString :: split p'
      else match split p' with
           | s :: ss => String c s :: ss
           | [] => [String c EmptyString]
           end
  end.

(** One segment of [normalizeString]; [res] holds the segments kept so far,
    the last one first. *)
Definition normalizeSegment (allowAboveRoot : bool) (res : list string)
    (seg : string) : list string :=
  if String.eqb seg "" || String.eqb seg "." then res
  else if String.eqb seg ".." then
    match res with
    | last :: rest =>
        if String.eqb last ".."
        then (if allowAboveRoot then ".." :: res else res)
        else rest
    | [] => if allowAboveRoot then [".."] else []
    end
  else seg :: res.

Definition normalizeString (allowAboveRoot : bool) (p : string) : string :=
  String.concat "/" (rev (fold_left (normalizeSegment allowAboveRoot) (split p) [])).

Definition endsWithSep (p : string) : bool :=
  match rev (list_ascii_of_string p) with
  | c :: _ => isSep c
  | [] => false
  end.

(** [path.normalize] *)
Definition normalize (p : string) : string :=
  if String.eqb p "" then "."
  else
    let body := normalizeString (negb (isAbsolute p)) p in
    if String.eqb body "" then
      (if isAbsolute p then "/" else if endsWithSep p then "./" else ".")
    else
      (if isAbsolute p then "/" else "") +:+ body +:+
      (if endsWithSep p then "/" else "").

(** [path.join]: the non-empty arguments joined by a slash, normalised. *)
Definition join (args : list string) : string :=
  match List.filter (fun a => negb (String.eqb a "")) args with
  | [] => "."
  | parts => normalize (String.concat "/" parts)
  end.

End Path.

(** [process.env] (the two variables the server reads) and [os.tmpdir()]. *)
Record Process := {
  HOME : option string;
  USERPROFILE : option string;
  tmpdir : string
}.

(** [a || b] where [a] is a string or [undefined]: the empty string is falsy. *)
Definition env_or (a : option string) (b : string) : string :=
  match a with
  | Some s => if String.eqb s "" then b else s
  | None => b
  end.

Inductive FsError := EISDIR | ENOENT | EEXIST.

Module Fs.

(** The file system as the server sees it: the directories that exist and
    the files with their contents, both keyed by the path string. Paths
    are compared as strings: a state names every directory and file by
    one path, and another spelling of it (["/a/./b"] for ["/a/b"], a
    trailing slash) is another key. *)
Record State (Data : Type) := {
  dirs : gset string;
  files : gmap string Data
}.
Arguments dirs {Data} _.
Arguments files {Data} _.

Section Ops.
Context {Data : Type}.

Definition existsSync (fs : State Data) (p : string) : bool :=
  bool_decide (p ∈ dirs fs) || bool_decide (is_Some (files fs !! p)).

(** A path and the directories above it. *)
Fixpoint ancestors (fuel : nat) (p : string) : list string :=
  match fuel with
  | O => [p]
  | S fuel' =>
      if String.eqb (Path.dirname p) p then [p]
      else p :: ancestors fuel' (Path.dirname p)
  end.

(** [fs.mkdirSync(p, { recursive: true })]: creates [p] and the missing
    directories above it; fails when one of them is a file. *)
Definition mkdirSync (fs : State Data) (p : string) : FsError + State Data :=
  let ps := ancestors (String.length p) p in
  if existsb (fun q => bool_decide (is_Some (files fs !! q))) ps
  then inl EEXIST
  else inr {| dirs := dirs fs ∪ list_to_set ps; files := files fs |}.

(** [fs.writeFileSync(p, data)]: fails on a directory and when the
    directory of [p] does not exist; otherwise [p] holds [data]. The
    failures are those met when the file is opened; what can go wrong
    later, while the data is written, is not modelled. *)
Definition writeFileSync (fs : State Data) (p : string) (data : Data)
    : FsError + State Data :=
  if bool_decide (p ∈ dirs fs) then inl EISDIR
  else if bool_decide (Path.dirname p ∈ dirs fs)
  then inr {| dirs := dirs fs; files := <[p := data]> (files fs) |}
  else inl ENOENT.

End Ops.
End Fs.

(** ** The data model of [index.ts] *)

(** A value that is a number or a string at run time ([pitch], and
    [duration] before it is normalised). *)
Inductive NumOrStr :=
| Num (x : float)
| Str (s : string).

(** An optional field is [None] when the key is absent ([undefined]). *)
Record MidiNote := {
  pitch : NumOrStr;
  beat : option float;
  startTime : option float;
  time : option float;
  duration : NumOrStr;
  velocity : option float;
  channel : option float
}.

Record MidiTrack := {
  name : option string;
  instrument : option float;
  notes : list MidiNote
}.

Record TimeSignature := {
  numerator : float;
  denominator : float
}.

Record MidiComposition := {
  bpm : option float;
  tempo : option float;
  timeSignature : option TimeSignature;
  tracks : list MidiTrack
}.

(** ** midi-writer-js, as the server drives it *)

Module MidiWriter.

Inductive Event :=
| ProgramChangeEvent (instrument channel : float)
| NoteEvent (pitch : list NumOrStr) (duration : NumOrStr)
    (velocity channel : float) (wait : string).

(** The calls [createMidiFile] makes on a [Track]. *)
Inductive Call :=
| addTrackName (name : string)
| setTempo (bpm : float)
| setTimeSignature (numerator denominator : float)
| addEvent (e : Event).

(** A track is the sequence of calls made on it, in order. *)
Definition Track := list Call.

(** [Buffer.from(new Writer(tracks).buildFile(), 'base64')]: the bytes
    midi-writer-js produces for these tracks. *)
Inductive Buffer :=
| buildFile (tracks : list Track).

End MidiWriter.

(** ** The server *)

Inductive ErrorCode := MethodNotFound | InvalidParams | InternalError.

Inductive McpError :=
| mcpError (code : ErrorCode) (cause : FsError).

Inductive Result (A : Type) :=
| Ok (a : A)
| Throw (e : McpError).
Arguments Ok {A} _.
Arguments Throw {A} _.

(** A number read where a field may be [undefined]: arithmetic on
    [undefined] gives [NaN]. *)
Definition ToNumber (v : option float) : float :=
  match v with
  | Some x => x
  | None => nan
  end.

(** [a || b] where [a] may be [undefined]. *)
Definition or_number (a : option float) (b : float) : float :=
  match a with
  | Some x => JS.or_else x b
  | None => b
  end.

(** The handler's first pass: a numeric [duration] becomes a string. *)
Definition normalizeDuration (note : MidiNote) : MidiNote :=
  match duration note with
  | Num d =>
      let s :=
        if JS.strict_eq d 0.125 then "32"
        else if JS.strict_eq d 0.25 then "16"
        else if JS.strict_eq d 0.5 then "8"
        else if JS.strict_eq d 1 then "4"
        else if JS.strict_eq d 2 then "2"
        else "4" in
      {| pitch := pitch note; beat := beat note; startTime := startTime note;
         time := time note; duration := Str s; velocity := velocity note;
         channel := channel note |}
  | Str _ => note
  end.

(** The handler's second pass: [time] moves to [startTime]. *)
Definition normalizeTime (note : MidiNote) : MidiNote :=
  match time note, startTime note with
  | Some t, None =>
      {| pitch := pitch note; beat := beat note; startTime := Some t;
         time := None; duration := duration note; velocity := velocity note;
         channel := channel note |}
  | _, _ => note
  end.

Definition forEachNote (f : MidiNote -> MidiNote) (c : MidiComposition)
    : MidiComposition :=
  {| bpm := bpm c; tempo := tempo c; timeSignature := timeSignature c;
     tracks := map (fun t => {| name := name t; instrument := instrument t;
                                notes := map f (notes t) |}) (tracks c) |}.

Definition normalizeComposition (c : MidiComposition) : MidiComposition :=
  forEachNote normalizeTime (forEachNote normalizeDuration c).

Definition noteToMidiNumber (note : NumOrStr) : NumOrStr :=
  match note with
  | Num n => Num n
  | Str s => Str s
  end.

Definition convertBeatToWait (beat bpm : float) : string :=
  let PPQ := 128%float in
  let adjustedBeat := (beat - 1)%float in
  let ticks := JS.Math_round ((adjustedBeat * PPQ) / bpm)%float in
  "T" +:+ JS.Number_toString ticks.

(** [trackIndex % 16]: [trackIndex] is the index [forEach] passes, a
    non-negative integer, and on such numbers [%] is the remainder of the
    integer division. *)
Definition trackChannel (trackIndex : nat) : float :=
  JS.Number_of_Z (Z.of_nat (trackIndex mod 16)).

Definition noteChannel (trackIndex : nat) (note : MidiNote) : float :=
  match channel note with
  | Some ch => JS.Number_rem ch 16
  | None => trackChannel trackIndex
  end.

Definition noteWait (composition : MidiComposition) (note : MidiNote) : string :=
  match beat note with
  | Some b => convertBeatToWait b (ToNumber (bpm composition))
  | None =>
      let startTime := or_number (startTime note) 0 in
      "T" +:+ JS.Number_toString (JS.Math_round (startTime * 0.5)%float)
  end.

Definition noteEvent (composition : MidiComposition) (trackIndex : nat)
    (note : MidiNote) : MidiWriter.Event :=
  let pitch := noteToMidiNumber (pitch note) in
  let velocity := match velocity note with Some v => v | None => 100%float end in
  let channel := noteChannel trackIndex note in
  let wait := noteWait composition note in
  MidiWriter.NoteEvent [pitch] (duration note) velocity channel wait.

(** [composition.bpm || composition.tempo || 120] *)
Definition trackTempo (composition : MidiComposition) : float :=
  or_number (bpm composition) (or_number (tempo composition) 120).

Definition buildTrack (composition : MidiComposition) (trackIndex : nat)
    (trackData : MidiTrack) : MidiWriter.Track :=
  (match name trackData with
   | Some n => if String.eqb n "" then [] else [MidiWriter.addTrackName n]
   | None => []
   end) ++
  [MidiWriter.setTempo (trackTempo composition)] ++
  (let ts := match timeSignature composition with
             | Some ts => ts
             | None => {| numerator := 4; denominator := 4 |}
             end in
   [MidiWriter.setTimeSignature (numerator ts) (denominator ts)]) ++
  (match instrument trackData with
   | Some i => [MidiWriter.addEvent
                  (MidiWriter.ProgramChangeEvent i (trackChannel trackIndex))]
   | None => []
   end) ++
  map (fun note => MidiWriter.addEvent (noteEvent composition trackIndex note))
      (notes trackData).

Definition buildTracks (composition : MidiComposition) : list MidiWriter.Track :=
  imap (buildTrack composition) (tracks composition).

Abbreviation FileSystem := (Fs.State MidiWriter.Buffer).

(** [process.env.HOME || process.env.USERPROFILE || os.tmpdir()] *)
Definition safeBaseDir (proc : Process) : string :=
  env_or (HOME proc) (env_or (USERPROFILE proc) (tmpdir proc)).

(** The output path and the state after the directory was made; [inl] when
    [mkdirSync] throws. *)
Definition resolveOutputPath (proc : Process) (fs : FileSystem)
    (outputPath : string) : FsError + (string * FileSystem) :=
  if Path.isAbsolute outputPath then inr (outputPath, fs)
  else
    let midiDir := Path.join [safeBaseDir proc; "midi-files"] in
    let made := if Fs.existsSync fs midiDir then inr fs else Fs.mkdirSync fs midiDir in
    match made with
    | inl e => inl e
    | inr fs' =>
        let fileName := Path.basename outputPath in
        inr (Path.join [midiDir; fileName], fs')
    end.

Definition resolvedPath (proc : Process) (fs : FileSystem) (outputPath : string)
    : option string :=
  match resolveOutputPath proc fs outputPath with
  | inr (outputFilePath, _) => Some outputFilePath
  | inl _ => None
  end.

(** [createMidiFile]: the result and the file system it leaves. What it
    awaits first, [processMidiComposition], resolves empty promises and
    sends progress notifications; it touches neither the composition nor
    the file system. Whatever is thrown is rethrown as an [InternalError].
    The calls on midi-writer-js are taken to return. The library can
    refuse one (a wait such as ["TNaN"], for instance): the call then ends
    in an [InternalError] before the file system is touched, a run this
    definition does not have. It is [createMidiFile] in the runs where the
    library accepts every call, and what is stated of a path it returns is
    stated of those runs. *)
Definition createMidiFile (proc : Process) (fs : FileSystem) (title : string)
    (composition : MidiComposition) (outputPath : string)
    : Result string * FileSystem :=
  let tracks := buildTracks composition in
  match resolveOutputPath proc fs outputPath with
  | inl e => (Throw (mcpError InternalError e), fs)
  | inr (outputFilePath, fs') =>
      match Fs.writeFileSync fs' outputFilePath (MidiWriter.buildFile tracks) with
      | inl e => (Throw (mcpError InternalError e), fs')
      | inr fs'' => (Ok outputFilePath, fs'')
      end
  end.

(** What the tool call returns: the text naming the saved file, or the
    error text with [isError]. *)
Inductive ToolResult :=
| Saved (title midiFilePath : string)
| IsError (e : McpError).

(** The [create_midi] handler for a composition given as an object: the two
    normalising passes, then [createMidiFile]. *)
Definition create_midi (proc : Process) (fs : FileSystem) (title : string)
    (composition : MidiComposition) (output_path : string)
    : ToolResult * FileSystem :=
  let composition := normalizeComposition composition in
  match createMidiFile proc fs title composition output_path with
  | (Ok midiFilePath, fs') => (Saved title midiFilePath, fs')
  | (Throw e, fs') => (IsError e, fs')
  end.

(** What the encoder is handed for a note. *)
Definition eventPitch (e : MidiWriter.Event) : list NumOrStr :=
  match e with
  | MidiWriter.NoteEvent p _ _ _ _ => p
  | MidiWriter.ProgramChangeEvent _ _ => []
  end.

Definition eventWait (e : MidiWriter.Event) : string :=
  match e with
  | MidiWriter.NoteEvent _ _ _ _ w => w
  | MidiWriter.ProgramChangeEvent _ _ => ""
  end.

Definition eventChannel (e : MidiWriter.Event) : float :=
  match e with
  | MidiWriter.NoteEvent _ _ _ ch _ => ch
  | MidiWriter.ProgramChangeEvent _ ch => ch
  end.

(** The note at position [j] of track [i]. *)
Definition noteAt (c : MidiComposition) (i j : nat) : option MidiNote :=
  t ← tracks c !! i; notes t !! j.

(** A note with some fields replaced (used to state what does not matter). *)
Definition withStartTime (note : MidiNote) (s t : option float) : MidiNote :=
  {| pitch := pitch note; beat := beat note; startTime := s; time := t;
     duration := duration note; velocity := velocity note;
     channel := channel note |}.

Definition withTempo (c : MidiComposition) (b t : option float) : MidiComposition :=
  {| bpm := b; tempo := t; timeSignature := timeSignature c; tracks := tracks c |}.

Definition withChannel (note : MidiNote) (ch : option float) : MidiNote :=
  {| pitch := pitch note; beat := beat note; startTime := startTime note;
     time := time note; duration := duration note; velocity := velocity note;
     channel := ch |}.

(** No slash in the string. *)
Definition noSep (f : string) : Prop :=
  forall ch, ch ∈ list_ascii_of_string f -> Path.isSep ch = false.


(** A segment [path.normalize] keeps: a name other than ["."]. *)
Definition properSeg (s : string) : Prop :=
  s <> "" /\ s <> "." /\ noSep s.

(** An ordinary file name: a name other than ["."] and [".."]. *)
Definition fileName (f : string) : Prop :=
  properSeg f /\ f <> "..".



(** [0 <= ch <= 15], as numbers compare. *)
Definition validChannel (ch : float) : bool :=
  (0 <=? ch)%float && (ch <=? 15)%float.

(** ** Sample inputs *)

Module Sample.

(** A quarter note on middle C placed by [beat] (and carrying a
    [startTime] as well). *)
Definition beatNote : MidiNote :=
  {| pitch := Num 60; beat := Some 2.5%float; startTime := Some 8%float;
     time := None; duration := Str "4"; velocity := Some 100%float;
     channel := None |}.

(** A note in the older format: [time] instead of [startTime], a numeric
    duration. *)
Definition legacyNote : MidiNote :=
  {| pitch := Num 64; beat := None; startTime := None; time := Some 2%float;
     duration := Num 0.25; velocity := None; channel := None |}.

(** A note placed by [startTime]. *)
Definition startNote : MidiNote :=
  {| pitch := Str "C4"; beat := None; startTime := Some 3%float; time := None;
     duration := Str "8"; velocity := None; channel := Some 17%float |}.

Definition piano : MidiTrack :=
  {| name := Some "Piano"; instrument := Some 0%float;
     notes := [beatNote; legacyNote; startNote] |}.

Definition song : MidiComposition :=
  {| bpm := Some 120%float; tempo := None; timeSignature := None;
     tracks := [piano] |}.


(** A composition whose only note asks for the channel -1. *)
Definition offChannel : MidiComposition :=
  {| bpm := Some 120%float; tempo := None; timeSignature := None;
     tracks := [ {| name := None; instrument := None;
                    notes := [ {| pitch := Num 60; beat := None;
                                  startTime := Some 0%float; time := None;
                                  duration := Str "4";
                                  velocity := Some 100%float;
                                  channel := Some (-1)%float |} ] |} ] |}.

Definition proc : Process :=
  {| HOME := Some "/home/u"; USERPROFILE := None; tmpdir := "/tmp" |}.

Definition disk : FileSystem :=
  {| Fs.dirs := {[ "/"; "/home"; "/home/u" ]}; Fs.files := ∅ |}.

(** A machine without a home directory. *)
Definition bare : Process :=
  {| HOME := None; USERPROFILE := None; tmpdir := "/tmp" |}.

(** The file system after the song was saved once, and after it was saved
    again elsewhere, by another process environment. *)
Definition savedOnce : FileSystem :=
  snd (create_midi proc disk "Song" (normalizeComposition song) "song.mid").

Definition savedTwice : FileSystem :=
  snd (create_midi bare savedOnce "Copy" (normalizeComposition song)
         "/home/u/copy.mid").

End Sample.

(** ** Batching and progress ([processMidiComposition]) *)

Module Batch.

Section Chunks.
Context {T : Type}.

(** [array.slice(i, j)] for indices [0 <= i <= j]. *)
Definition slice (array : list T) (i j : nat) : list T :=
  take (j - i) (drop i array).

(** The loop of [chunkArray]: [i] advances by [size], each round pushes
    [array.slice(i, i + size)]. With [size = 0] the loop of the source never
    ends; for [size >= 1] it ends within [array.length] rounds, the fuel
    [chunkArray] gives it. *)
Fixpoint chunkLoop (fuel : nat) (array : list T) (size i : nat)
    (chunks : list (list T)) : list (list T) :=
  match fuel with
  | O => chunks
  | S fuel' =>
      if i <? length array
      then chunkLoop fuel' array size (i + size)
             (chunks ++ [slice array i (i + size)])
      else chunks
  end.

Definition chunkArray (array : list T) (size : nat) : list (list T) :=
  chunkLoop (length array) array size 0 [].

End Chunks.

Definition batchSize : nat := 50.

(** What [processMidiComposition] hands on for a track: the chunks of its
    notes to [processNoteChunk], or the track to [processTrack]. Both
    resolve at once and do nothing else. *)
Inductive Work :=
| NoteChunk (notes : list MidiNote)
| WholeTrack (track : MidiTrack).

Definition workNotes (w : Work) : list MidiNote :=
  match w with
  | NoteChunk ns => ns
  | WholeTrack t => notes t
  end.

Definition trackWork (track : MidiTrack) : list Work :=
  if batchSize <? length (notes track)
  then NoteChunk <$> chunkArray (notes track) batchSize
  else [WholeTrack track].

End Batch.

(** [Math.floor], computed exactly. *)
Definition Math_floor (x : float) : float :=
  match Prim2SF x with
  | S754_finite s m e =>
      if (0 <=? e)%Z then x
      else
        let n := ((if s then Zneg m else Zpos m) / 2 ^ (- e))%Z in
        if (n =? 0)%Z then 0%float else JS.Number_of_Z n
  | _ => x
  end.

(** The progress notifications the server sends. *)
Inductive Notification :=
| Started
| TrackProgress (progress : float) (processedTracks totalTracks : nat)
| Completed.

(** The [progress] field of a notification. *)
Definition progressOf (n : Notification) : float :=
  match n with
  | Started => 0
  | TrackProgress p _ _ => p
  | Completed => 100
  end.

(** [Math.floor((processedTracks / totalTracks) * 100)], both counters being
    non-negative integers (at most the length of an array, below [2^32],
    where [Number_of_Z] is exact). *)
Definition trackProgress (processedTracks totalTracks : nat) : float :=
  Math_floor ((JS.Number_of_Z (Z.of_nat processedTracks) /
               JS.Number_of_Z (Z.of_nat totalTracks)) * 100)%float.

(** [processMidiComposition]: the work handed on, track by track, and the
    notification sent after each track. *)
Definition processMidiComposition (composition : MidiComposition)
    : list (list Batch.Work) * list Notification :=
  (Batch.trackWork <$> tracks composition,
   imap (fun k _ =>
           TrackProgress (trackProgress (S k) (length (tracks composition)))
                         (S k) (length (tracks composition)))
        (tracks composition)).

(** ** What the encoder is handed, call by call *)

Definition isNoteCall (call : MidiWriter.Call) : bool :=
  match call with
  | MidiWriter.addEvent (MidiWriter.NoteEvent _ _ _ _ _) => true
  | _ => false
  end.

(** The [duration] of a [NoteEvent] is a string. *)
Definition stringDuration (call : MidiWriter.Call) : bool :=
  match call with
  | MidiWriter.addEvent (MidiWriter.NoteEvent _ (Num _) _ _ _) => false
  | _ => true
  end.

(** ** Values as [JSON.parse] gives them *)

#[warnings="-register-all"]
Inductive JsValue :=
| JNull
| JBool (b : bool)
| JNumber (x : float)
| JString (s : string)
| JArray (items : list JsValue)
| JObject (props : list (string * JsValue)).

(** The properties of an object, in insertion order; a key is looked up at
    its first binding. *)
Fixpoint getProp (props : list (string * JsValue)) (k : string) : option JsValue :=
  match props with
  | [] => None
  | (k', v) :: rest => if String.eqb k' k then Some v else getProp rest k
  end.

(** [obj[k] = v]: an existing key keeps its place, a new one goes last. *)
Fixpoint setProp (props : list (string * JsValue)) (k : string) (v : JsValue)
    : list (string * JsValue) :=
  match props with
  | [] => [(k, v)]
  | (k', v') :: rest =>
      if String.eqb k' k then (k, v) :: rest else (k', v') :: setProp rest k v
  end.

(** [delete obj[k]] *)
Definition deleteProp (props : list (string * JsValue)) (k : string)
    : list (string * JsValue) :=
  List.filter (fun kv => negb (String.eqb (fst kv) k)) props.

(** A [TypeError] or [SyntaxError] thrown by the engine. *)
Inductive Thrown := TypeError | SyntaxError.

(** [value.k] for the names the handler reads ([tracks], [notes],
    [duration], [startTime]), none of which an array, a string, a number or
    a boolean has: [undefined] ([None]) unless [value] is an object with
    that key; reading from [null] or [undefined] throws. *)
Definition readProp (value : option JsValue) (k : string)
    : Thrown + option JsValue :=
  match value with
  | None | Some JNull => inl TypeError
  | Some (JObject props) => inr (getProp props k)
  | Some _ => inr None
  end.

(** The elements [value.forEach] visits: only an array has [forEach]. *)
Definition forEachItems (value : option JsValue) : Thrown + list JsValue :=
  match value with
  | Some (JArray items) => inr items
  | _ => inl TypeError
  end.

(** [ToBoolean] of an argument that may be absent. *)
Definition truthy (value : option JsValue) : bool :=
  match value with
  | None | Some JNull => false
  | Some (JBool b) => b
  | Some (JNumber x) => JS.ToBoolean x
  | Some (JString s) => negb (String.eqb s "")
  | Some (JArray _) | Some (JObject _) => true
  end.

(** Running [f] over a list, stopping at the first throw. *)
Fixpoint mapThrow {A B : Type} (f : A -> Thrown + B) (l : list A)
    : Thrown + list B :=
  match l with
  | [] => inr []
  | x :: rest =>
      match f x with
      | inl e => inl e
      | inr y => match mapThrow f rest with
                 | inl e => inl e
                 | inr ys => inr (y :: ys)
                 end
      end
  end.

(** ** The handler's passes on a parsed composition *)

(** The string the first pass gives a numeric duration. *)
Definition durationString (d : float) : string :=
  if JS.strict_eq d 0.125 then "32"
  else if JS.strict_eq d 0.25 then "16"
  else if JS.strict_eq d 0.5 then "8"
  else if JS.strict_eq d 1 then "4"
  else if JS.strict_eq d 2 then "2"
  else "4".

(** The body of the first pass: [typeof note.duration === 'number']. *)
Definition normalizeDurationJs (note : JsValue) : Thrown + JsValue :=
  match note with
  | JNull => inl TypeError
  | JObject props =>
      match getProp props "duration" with
      | Some (JNumber d) =>
          inr (JObject (setProp props "duration" (JString (durationString d))))
      | _ => inr note
      end
  | _ => inr note
  end.

(** The body of the second pass: ['time' in note] throws unless [note] is
    an object or an array. *)
Definition normalizeTimeJs (note : JsValue) : Thrown + JsValue :=
  match note with
  | JObject props =>
      match getProp props "time", getProp props "startTime" with
      | Some t, None =>
          inr (JObject (deleteProp (setProp props "startTime" t) "time"))
      | _, _ => inr note
      end
  | JArray _ => inr note
  | _ => inl TypeError
  end.

(** [track.notes.forEach(f)], the notes being changed in place. *)
Definition forEachNoteOfTrack (f : JsValue -> Thrown + JsValue) (track : JsValue)
    : Thrown + JsValue :=
  match readProp (Some track) "notes" with
  | inl e => inl e
  | inr notesValue =>
      match forEachItems notesValue with
      | inl e => inl e
      | inr notes =>
          match mapThrow f notes, track with
          | inl e, _ => inl e
          | inr notes', JObject props =>
              inr (JObject (setProp props "notes" (JArray notes')))
          | inr _, _ => inr track
          end
      end
  end.

(** [composition.tracks.forEach(track => track.notes.forEach(f))] *)
Definition forEachNoteJs (f : JsValue -> Thrown + JsValue) (composition : JsValue)
    : Thrown + JsValue :=
  match readProp (Some composition) "tracks" with
  | inl e => inl e
  | inr tracksValue =>
      match forEachItems tracksValue with
      | inl e => inl e
      | inr tracks =>
          match mapThrow (forEachNoteOfTrack f) tracks, composition with
          | inl e, _ => inl e
          | inr tracks', JObject props =>
              inr (JObject (setProp props "tracks" (JArray tracks')))
          | inr _, _ => inr composition
          end
      end
  end.

(** The two passes, one after the other. *)
Definition normalizeJs (composition : JsValue) : Thrown + JsValue :=
  match forEachNoteJs normalizeDurationJs composition with
  | inl e => inl e
  | inr composition' => forEachNoteJs normalizeTimeJs composition'
  end.

(** Whether a step returned. *)
Definition accepted {A : Type} (r : Thrown + A) : bool :=
  match r with
  | inr _ => true
  | inl _ => false
  end.

(** The shape of a composition: an object whose [tracks] is an array of
    objects whose [notes] are arrays, every note passing [noteOk]. *)
Definition trackShapedBy (noteOk : JsValue -> bool) (track : JsValue) : bool :=
  match track with
  | JObject props =>
      match getProp props "notes" with
      | Some (JArray notes) => forallb noteOk notes
      | _ => false
      end
  | _ => false
  end.

Definition compositionShapedBy (noteOk : JsValue -> bool) (composition : JsValue)
    : bool :=
  match composition with
  | JObject props =>
      match getProp props "tracks" with
      | Some (JArray tracks) => forallb (trackShapedBy noteOk) tracks
      | _ => false
      end
  | _ => false
  end.

(** The notes the two passes get through: objects and arrays. *)
Definition noteShaped (note : JsValue) : bool :=
  match note with
  | JObject _ | JArray _ => true
  | _ => false
  end.

Definition compositionShaped : JsValue -> bool := compositionShapedBy noteShaped.

(** The tracks of a composition and the notes of a track, where they are
    arrays. *)
Definition tracksOfComposition (composition : JsValue) : list JsValue :=
  match readProp (Some composition) "tracks" with
  | inr (Some (JArray tracks)) => tracks
  | _ => []
  end.

Definition notesOfTrack (track : JsValue) : list JsValue :=
  match readProp (Some track) "notes" with
  | inr (Some (JArray notes)) => notes
  | _ => []
  end.

(** A note before and after the two passes, key by key. *)
Definition noteNormalized (note note' : JsValue) : Prop :=
  match note, note' with
  | JObject props, JObject props' =>
      getProp props' "duration" =
        match getProp props "duration" with
        | Some (JNumber d) => Some (JString (durationString d))
        | other => other
        end /\
      getProp props' "startTime" =
        match getProp props "startTime" with
        | None => getProp props "time"
        | s => s
        end /\
      getProp props' "time" =
        match getProp props "startTime" with
        | None => None
        | Some _ => getProp props "time"
        end /\
      forall k, k <> "duration" -> k <> "startTime" -> k <> "time" ->
                getProp props' k = getProp props k
  | JArray items, JArray items' => items = items'
  | _, _ => False
  end.

(** The track before and after the two passes. *)
Definition trackNormalized (t t' : JsValue) : Prop :=
  (forall k, k <> "notes" -> readProp (Some t') k = readProp (Some t) k) /\
  trackShapedBy noteShaped t' = true /\
  Forall2 noteNormalized (notesOfTrack t) (notesOfTrack t').

(** ** Typed compositions among the parsed values *)

Definition decodeOptNumber (v : option JsValue) : option (option float) :=
  match v with
  | None => Some None
  | Some (JNumber x) => Some (Some x)
  | Some _ => None
  end.

Definition decodeOptString (v : option JsValue) : option (option string) :=
  match v with
  | None => Some None
  | Some (JString s) => Some (Some s)
  | Some _ => None
  end.

Definition decodeNumOrStr (v : option JsValue) : option NumOrStr :=
  match v with
  | Some (JNumber x) => Some (Num x)
  | Some (JString s) => Some (Str s)
  | _ => None
  end.

Definition decodeNote (v : JsValue) : option MidiNote :=
  match v with
  | JObject props =>
      p ← decodeNumOrStr (getProp props "pitch");
      b ← decodeOptNumber (getProp props "beat");
      s ← decodeOptNumber (getProp props "startTime");
      t ← decodeOptNumber (getProp props "time");
      d ← decodeNumOrStr (getProp props "duration");
      vel ← decodeOptNumber (getProp props "velocity");
      ch ← decodeOptNumber (getProp props "channel");
      Some {| pitch := p; beat := b; startTime := s; time := t; duration := d;
              velocity := vel; channel := ch |}
  | _ => None
  end.

Definition decodeTrack (v : JsValue) : option MidiTrack :=
  match v with
  | JObject props =>
      n ← decodeOptString (getProp props "name");
      i ← decodeOptNumber (getProp props "instrument");
      ns ← match getProp props "notes" with
           | Some (JArray items) => mapM decodeNote items
           | _ => None
           end;
      Some {| name := n; instrument := i; notes := ns |}
  | _ => None
  end.

Definition decodeTimeSignature (v : option JsValue) : option (option TimeSignature) :=
  match v with
  | None => Some None
  | Some (JObject props) =>
      match getProp props "numerator", getProp props "denominator" with
      | Some (JNumber n), Some (JNumber d) =>
          Some (Some {| numerator := n; denominator := d |})
      | _, _ => None
      end
  | Some _ => None
  end.

(** The typed composition a parsed value stands for, when its fields have
    the types of [MidiComposition]. *)
Definition decodeComposition (v : JsValue) : option MidiComposition :=
  match v with
  | JObject props =>
      b ← decodeOptNumber (getProp props "bpm");
      t ← decodeOptNumber (getProp props "tempo");
      ts ← decodeTimeSignature (getProp props "timeSignature");
      trs ← match getProp props "tracks" with
            | Some (JArray items) => mapM decodeTrack items
            | _ => None
            end;
      Some {| bpm := b; tempo := t; timeSignature := ts; tracks := trs |}
  | _ => None
  end.

(** A typed track after the two passes. *)
Definition normalizeTrack (t : MidiTrack) : MidiTrack :=
  {| name := name t; instrument := instrument t;
     notes := (fun n => normalizeTime (normalizeDuration n)) <$> notes t |}.

(** ** The [create_midi] request handler *)

(** What the handler takes from the host: [fs.readFileSync(path, 'utf8')]
    and [JSON.parse], [None] when they throw. *)
Record Host := {
  readFileSync : string -> option string;
  JSON_parse : string -> option JsValue
}.

Module CallTool.

(** [request.params.arguments] *)
Record Arguments := {
  title : string;
  composition : option JsValue;
  composition_file : option string;
  output_path : string
}.

End CallTool.

(** The arguments with another [composition], with no [composition_file]. *)
Definition withComposition (args : CallTool.Arguments) (composition : option JsValue)
    : CallTool.Arguments :=
  {| CallTool.title := CallTool.title args;
     CallTool.composition := composition;
     CallTool.composition_file := CallTool.composition_file args;
     CallTool.output_path := CallTool.output_path args |}.

Definition withoutFile (args : CallTool.Arguments) : CallTool.Arguments :=
  {| CallTool.title := CallTool.title args;
     CallTool.composition := CallTool.composition args;
     CallTool.composition_file := None;
     CallTool.output_path := CallTool.output_path args |}.

(** Why the handler gives up before [createMidiFile]. *)
Inductive Rejection :=
| UnknownTool (toolName : string)
| NoComposition
| CompositionFileUnreadable
| CompositionInvalid (e : Thrown).

(** The code of the [McpError] a rejection is reported with. *)
Definition rejectionCode (r : Rejection) : ErrorCode :=
  match r with
  | UnknownTool _ => MethodNotFound
  | _ => InvalidParams
  end.

Definition truthyString (s : option string) : bool :=
  match s with
  | Some s => negb (String.eqb s "")
  | None => false
  end.

(** The composition the handler works on: read from [composition_file]
    when that is given, parsed from [composition] when that is a string,
    [composition] itself otherwise. *)
Definition loadComposition (host : Host) (args : CallTool.Arguments)
    : Rejection + option JsValue :=
  if truthyString (CallTool.composition_file args) then
    match CallTool.composition_file args with
    | Some file =>
        match readFileSync host file with
        | Some fileContent =>
            match JSON_parse host fileContent with
            | Some v => inr (Some v)
            | None => inl CompositionFileUnreadable
            end
        | None => inl CompositionFileUnreadable
        end
    | None => inl CompositionFileUnreadable
    end
  else
    match CallTool.composition args with
    | Some (JString text) =>
        match JSON_parse host text with
        | Some v => inr (Some v)
        | None => inl (CompositionInvalid SyntaxError)
        end
    | other => inr other
    end.

(** The handler up to the call of [createMidiFile]: the composition it
    hands on, or the rejection, and the notifications sent so far. *)
Definition prepareComposition (host : Host) (toolName : string)
    (args : CallTool.Arguments) : (Rejection + JsValue) * list Notification :=
  if negb (String.eqb toolName "create_midi") then (inl (UnknownTool toolName), [])
  else if negb (truthy (CallTool.composition args))
          && negb (truthyString (CallTool.composition_file args))
  then (inl NoComposition, [Started])
  else
    match loadComposition host args with
    | inl r => (inl r, [Started])
    | inr None => (inl (CompositionInvalid TypeError), [Started])
    | inr (Some composition) =>
        match normalizeJs composition with
        | inl e => (inl (CompositionInvalid e), [Started])
        | inr composition' => (inr composition', [Started])
        end
    end.

(** What went wrong: before [createMidiFile], or in it. *)
Inductive Failure :=
| Rejected (r : Rejection)
| Failed (e : McpError).

Definition failureCode (f : Failure) : ErrorCode :=
  match f with
  | Rejected r => rejectionCode r
  | Failed (mcpError code _) => code
  end.

(** What the handler returns: the text naming the saved file, or an error
    text with [isError: true]. *)
Inductive CallToolResult :=
| Content (title midiFilePath : string)
| ErrorContent (f : Failure).

(** The handler of [CallToolRequestSchema]: its result, the notifications
    it sends and the file system it leaves. [createMidiFile] is embedded
    for typed compositions; the result is [None] for a composition that
    gets through the passes with a field of another type. *)
Definition CallToolHandler (host : Host) (proc : Process) (fs : FileSystem)
    (toolName : string) (args : CallTool.Arguments)
    : option (CallToolResult * list Notification * FileSystem) :=
  match prepareComposition host toolName args with
  | (inl r, sent) => Some (ErrorContent (Rejected r), sent, fs)
  | (inr v, sent) =>
      c ← decodeComposition v;
      let progress := snd (processMidiComposition c) in
      match createMidiFile proc fs (CallTool.title args) c
              (CallTool.output_path args) with
      | (Ok midiFilePath, fs') =>
          Some (Content (CallTool.title args) midiFilePath,
                sent ++ progress ++ [Completed], fs')
      | (Throw e, fs') =>
          Some (ErrorContent (Failed e), sent ++ progress, fs')
      end
  end.

(** ** Sample requests *)

Module Demo.

(** [Sample.song] as [JSON.parse] gives it. *)
Definition beatNote : JsValue :=
  JObject [("pitch", JNumber 60); ("beat", JNumber 2.5); ("startTime", JNumber 8);
           ("duration", JString "4"); ("velocity", JNumber 100)].

Definition legacyNote : JsValue :=
  JObject [("pitch", JNumber 64); ("time", JNumber 2); ("duration", JNumber 0.25)].

Definition startNote : JsValue :=
  JObject [("pitch", JString "C4"); ("startTime", JNumber 3);
           ("duration", JString "8"); ("channel", JNumber 17)].

Definition song : JsValue :=
  JObject [("bpm", JNumber 120);
           ("tracks",
            JArray [JObject [("name", JString "Piano"); ("instrument", JNumber 0);
                             ("notes", JArray [beatNote; legacyNote; startNote])]])].

(** The song after the handler's passes. *)
Definition normalized : JsValue :=
  JObject [("bpm", JNumber 120);
           ("tracks",
            JArray [JObject [("name", JString "Piano"); ("instrument", JNumber 0);
                             ("notes",
                              JArray [beatNote;
                                      JObject [("pitch", JNumber 64);
                                               ("duration", JString "16");
                                               ("startTime", JNumber 2)];
                                      startNote])]])].

(** A composition with a track that has no [notes]. *)
Definition noNotes : JsValue :=
  JObject [("tracks", JArray [JObject [("name", JString "Piano")]])].

(** A host with one file, [/home/u/empty.json], that holds [{}]. Of
    [JSON.parse] the host gives what the samples need: [{}] is the empty
    object, and no other text met here is JSON. *)
Definition host : Host :=
  {| readFileSync := fun file =>
       if String.eqb file "/home/u/empty.json" then Some "{}" else None;
     JSON_parse := fun text =>
       if String.eqb text "{}" then Some (JObject []) else None |}.

(** A request to save ["song.mid"] under the title ["Song"]. *)
Definition request (composition : option JsValue) (composition_file : option string)
    : CallTool.Arguments :=
  {| CallTool.title := "Song"; CallTool.composition := composition;
     CallTool.composition_file := composition_file;
     CallTool.output_path := "song.mid" |}.

(** The notifications of a successful call on a one-track composition. *)
Definition sent : list Notification :=
  [Started; TrackProgress 100 1 1; Completed].

End Demo.

(** * Properties *)

(** Every note of the composition has its [NoteEvent] added to the track
    built for its [MidiTrack]. *)
Lemma noteEvent_in_buildTracks (c : MidiComposition) (i j : nat) (note : MidiNote) :
  noteAt c i j = Some note ->
  exists track,
    buildTracks c !! i = Some track /\
    MidiWriter.addEvent (noteEvent c i note) ∈ track.
Proof.
  unfold noteAt. destruct (tracks c !! i) as [t|] eqn:Et; simpl; [|discriminate].
  intros Hj. exists (buildTrack c i t). split.
  - unfold buildTracks. now rewrite list_lookup_imap, Et.
  - unfold buildTrack. rewrite !elem_of_app. do 4 right.
    change (map ?g ?l) with (g <$> l).
    apply (list_elem_of_fmap_2 (fun n => MidiWriter.addEvent (noteEvent c i n))).
    eapply list_elem_of_lookup_2, Hj.
Qed.

(** ** Pitch *)

(** C10: [noteToMidiNumber] returns its argument unchanged, a number or a
    string alike, and the encoder is handed the note's [pitch] field as it
    is, in a one-element array. *)
Theorem noteToMidiNumber_identity :
  (forall note : NumOrStr, noteToMidiNumber note = note) /\
  (forall s : string, noteToMidiNumber (Str s) = Str s) /\
  (forall composition trackIndex note,
      eventPitch (noteEvent composition trackIndex note) = [pitch note]).
Proof.
  assert (Hid : forall note, noteToMidiNumber note = note) by (intros []; reflexivity).
  split; [exact Hid|]. split; [reflexivity|].
  intros composition trackIndex note. simpl. now rewrite Hid.
Qed.

(** ** Timing *)

Example convertBeatToWait_first_beat : convertBeatToWait 1 120 = "T0".
Proof. vm_compute. reflexivity. Qed.

Example convertBeatToWait_beat_100 : convertBeatToWait 100 1 = "T12672".
Proof. vm_compute. reflexivity. Qed.

Example Math_round_ties :
  JS.Math_round 2.5 = 3%float /\ JS.Math_round (-2.5) = (-2)%float /\
  JS.Math_round (-0.5) = (-0)%float.
Proof. vm_compute. repeat split. Qed.

Example Number_toString_examples :
  JS.Number_toString 128 = "128" /\
  JS.Number_toString (-0) = "0" /\
  JS.Number_toString (-3) = "-3" /\
  JS.Number_toString 0.1 = "0.1" /\
  JS.Number_toString 1152921504606846976 = "1152921504606847000" /\
  JS.Number_toString 1e21 = "1e+21" /\
  JS.Number_toString nan = "NaN" /\
  JS.Number_toString infinity = "Infinity".
Proof. vm_compute. repeat split. Qed.

Example Number_rem_examples :
  JS.Number_rem 17 16 = 1%float /\
  JS.Number_rem 16 16 = 0%float /\
  JS.Number_rem (-1) 16 = (-1)%float /\
  JS.Number_rem (-16) 16 = (-0)%float /\
  JS.Number_rem 16.5 16 = 0.5%float /\
  JS.Number_rem 9007199254740993 16 = 0%float.
Proof. vm_compute. repeat split. Qed.

(** Without a [bpm] field the division is by [undefined]: the wait is
    ["TNaN"], also when the [tempo] alias is given. *)
Example beat_wait_without_bpm :
  noteWait (withTempo Sample.song None (Some 90%float)) Sample.beatNote = "TNaN".
Proof. vm_compute. reflexivity. Qed.

(** The calls made for a one-note piano track. *)
Example one_note_track :
  buildTracks
    {| bpm := Some 120%float; tempo := None; timeSignature := None;
       tracks := [ {| name := Some "Piano"; instrument := Some 0%float;
                      notes := [ {| pitch := Num 60; beat := None;
                                    startTime := Some 0%float; time := None;
                                    duration := Str "4";
                                    velocity := Some 100%float;
                                    channel := None |} ] |} ] |}
  = [[MidiWriter.addTrackName "Piano"; MidiWriter.setTempo 120;
      MidiWriter.setTimeSignature 4 4;
      MidiWriter.addEvent (MidiWriter.ProgramChangeEvent 0 0);
      MidiWriter.addEvent (MidiWriter.NoteEvent [Num 60] (Str "4") 100 0 "T0")]].
Proof. vm_compute. reflexivity. Qed.

(** C1: a note that has a [beat] waits ["T" + ticks] with
    [ticks = Math.round(((beat - 1) * 128) / bpm)], [bpm] being the
    composition's [bpm] field (read as a number). *)
Theorem beat_wait_formula (composition : MidiComposition) (i j : nat)
    (note : MidiNote) (b : float) :
  noteAt composition i j = Some note ->
  beat note = Some b ->
  exists track,
    buildTracks composition !! i = Some track /\
    MidiWriter.addEvent (noteEvent composition i note) ∈ track /\
    eventWait (noteEvent composition i note) =
    "T" +:+ JS.Number_toString
              (JS.Math_round (((b - 1) * 128) / ToNumber (bpm composition))%float).
Proof.
  intros Hn Hb.
  destruct (noteEvent_in_buildTracks _ _ _ _ Hn) as (track & Ht & Hin).
  exists track. split; [exact Ht|]. split; [exact Hin|].
  simpl. unfold noteWait. rewrite Hb. reflexivity.
Qed.

(** C9: when a note has both [beat] and [startTime], the wait is computed
    from the beat: it is ["T" + ticks] with
    [ticks = Math.round(((beat - 1) * 128) / bpm)], [bpm] being the
    composition's [bpm] field, and it is the same whatever [startTime] (and
    [time]) hold. *)
Theorem beat_takes_precedence (composition : MidiComposition) (i j : nat)
    (note : MidiNote) (b s : float) :
  noteAt composition i j = Some note ->
  beat note = Some b ->
  startTime note = Some s ->
  exists track,
    buildTracks composition !! i = Some track /\
    MidiWriter.addEvent (noteEvent composition i note) ∈ track /\
    eventWait (noteEvent composition i note) =
      "T" +:+ JS.Number_toString
                (JS.Math_round (((b - 1) * 128) / ToNumber (bpm composition))%float) /\
    (forall x, bpm composition = Some x ->
       eventWait (noteEvent composition i note) =
       "T" +:+ JS.Number_toString (JS.Math_round (((b - 1) * 128) / x)%float)) /\
    forall s' t',
      eventWait (noteEvent composition i (withStartTime note s' t')) =
      eventWait (noteEvent composition i note).
Proof.
  intros Hn Hb _.
  destruct (noteEvent_in_buildTracks _ _ _ _ Hn) as (track & Ht & Hin).
  exists track. split; [exact Ht|]. split; [exact Hin|].
  split; [|split].
  - simpl. unfold noteWait. rewrite Hb. reflexivity.
  - intros x Hx. simpl. unfold noteWait. rewrite Hb, Hx. reflexivity.
  - intros s' t'. simpl. unfold noteWait. simpl. now rewrite Hb.
Qed.

(** ** Normalisation *)

Lemma noteAt_forEachNote (f : MidiNote -> MidiNote) (c : MidiComposition)
    (i j : nat) :
  noteAt (forEachNote f c) i j = f <$> noteAt c i j.
Proof.
  unfold noteAt, forEachNote. simpl.
  change (map ?g ?l) with (g <$> l).
  rewrite list_lookup_fmap.
  destruct (tracks c !! i) as [t|]; simpl; [|reflexivity].
  change (map f (notes t)) with (f <$> notes t).
  now rewrite list_lookup_fmap.
Qed.

Lemma noteAt_normalizeComposition (c : MidiComposition) (i j : nat) :
  noteAt (normalizeComposition c) i j =
  (fun n => normalizeTime (normalizeDuration n)) <$> noteAt c i j.
Proof.
  unfold normalizeComposition. rewrite !noteAt_forEachNote.
  now destruct (noteAt c i j).
Qed.

Lemma duration_normalizeTime (note : MidiNote) :
  duration (normalizeTime note) = duration note.
Proof.
  unfold normalizeTime. now destruct (time note), (startTime note).
Qed.

Lemma position_normalizeDuration (note : MidiNote) :
  startTime (normalizeDuration note) = startTime note /\
  time (normalizeDuration note) = time note.
Proof.
  unfold normalizeDuration. now destruct (duration note).
Qed.

(** C3: the handler turns a numeric duration into a string: 0.125 into
    "32", 0.25 into "16", 0.5 into "8", 1 into "4", 2 into "2", and any
    other number into "4"; it never fails. *)
Theorem numeric_duration_table (c : MidiComposition) (i j : nat)
    (note : MidiNote) (d : float) :
  noteAt c i j = Some note ->
  duration note = Num d ->
  exists note' s,
    noteAt (normalizeComposition c) i j = Some note' /\
    duration note' = Str s /\
    (d = 0.125%float -> s = "32") /\
    (d = 0.25%float -> s = "16") /\
    (d = 0.5%float -> s = "8") /\
    (d = 1%float -> s = "4") /\
    (d = 2%float -> s = "2") /\
    (JS.strict_eq d 0.125 = false -> JS.strict_eq d 0.25 = false ->
     JS.strict_eq d 0.5 = false -> JS.strict_eq d 1 = false ->
     JS.strict_eq d 2 = false -> s = "4").
Proof.
  intros Hn Hd.
  rewrite noteAt_normalizeComposition, Hn. simpl.
  eexists _, _. split; [reflexivity|].
  rewrite duration_normalizeTime. unfold normalizeDuration. rewrite Hd. simpl.
  split; [reflexivity|].
  repeat split; try (intros ->; vm_compute; reflexivity).
  intros -> -> -> -> ->. reflexivity.
Qed.

(** C6: after the handler's passes a note whose [time] was present and
    whose [startTime] was absent has that value in [startTime] and no
    [time]; a note that had a [startTime] keeps it (also when [time] is
    present), and the wait is computed from [startTime] alone, [time] not
    being read. *)
Theorem time_alias_normalized (c : MidiComposition) (i j : nat)
    (note : MidiNote) :
  noteAt c i j = Some note ->
  exists note',
    noteAt (normalizeComposition c) i j = Some note' /\
    (forall t, time note = Some t -> startTime note = None ->
               startTime note' = Some t /\ time note' = None) /\
    (forall s, startTime note = Some s ->
               startTime note' = Some s /\ time note' = time note) /\
    (time note' <> None -> startTime note' <> None) /\
    (forall composition trackIndex t',
        noteEvent composition trackIndex (withStartTime note' (startTime note') t')
        = noteEvent composition trackIndex note').
Proof.
  intros Hn. rewrite noteAt_normalizeComposition, Hn. simpl.
  eexists. split; [reflexivity|].
  assert (Hpos : forall A B C D : Prop, (A /\ B /\ C) -> D -> A /\ B /\ C /\ D)
    by tauto.
  apply Hpos; [|intros; reflexivity]. clear Hpos.
  destruct (position_normalizeDuration note) as [Hs Ht].
  set (n1 := normalizeDuration note) in *.
  unfold normalizeTime. rewrite Hs, Ht.
  destruct (time note) as [t|] eqn:Et, (startTime note) as [s|] eqn:Es; simpl;
    rewrite ?Hs, ?Ht; repeat split; intros; simplify_eq; congruence.
Qed.

(** ** The startTime formula *)

Lemma is_zero_cases (x : float) :
  is_zero x = true -> x = 0%float \/ x = (-0)%float.
Proof.
  unfold is_zero. rewrite FloatAxioms.eqb_spec. intros H.
  rewrite <- (SF2Prim_Prim2SF x).
  replace (Prim2SF PrimFloat.zero) with (S754_zero false) in H by (vm_compute; reflexivity).
  destruct (Prim2SF x) as [[|]| [|] | |[|] m e]; try discriminate H; auto.
Qed.

(** [startTime || 0] and [startTime] give the same wait, unless [startTime]
    is NaN. *)
Lemma startTime_or_zero (s : float) :
  is_nan s = false ->
  JS.Number_toString (JS.Math_round (JS.or_else s 0 * 0.5)%float) =
  JS.Number_toString (JS.Math_round (s * 0.5)%float).
Proof.
  intros Hnan. unfold JS.or_else, JS.ToBoolean. rewrite Hnan, orb_false_r.
  destruct (is_zero s) eqn:Hz; simpl; [|reflexivity].
  destruct (is_zero_cases s Hz) as [-> | ->]; vm_compute; reflexivity.
Qed.

(** C2: a note without [beat] waits ["T" + ticks] with
    [ticks = Math.round(startTime * 0.5)], for every [startTime] a
    composition can carry (any number but NaN); the composition's [bpm]
    does not enter. A note with neither field waits ["T0"]. *)
Theorem startTime_wait_formula (composition : MidiComposition) (i j : nat)
    (note : MidiNote) (s : float) :
  noteAt composition i j = Some note ->
  beat note = None ->
  startTime note = Some s ->
  is_nan s = false ->
  exists track,
    buildTracks composition !! i = Some track /\
    MidiWriter.addEvent (noteEvent composition i note) ∈ track /\
    eventWait (noteEvent composition i note) =
      "T" +:+ JS.Number_toString (JS.Math_round (s * 0.5)%float) /\
    (forall b t,
        eventWait (noteEvent (withTempo composition b t) i note) =
        eventWait (noteEvent composition i note)) /\
    eventWait (noteEvent composition i (withStartTime note None None)) = "T0".
Proof.
  intros Hn Hb Hs Hnan.
  destruct (noteEvent_in_buildTracks _ _ _ _ Hn) as (track & Ht & Hin).
  exists track. split; [exact Ht|]. split; [exact Hin|].
  simpl. unfold noteWait. simpl. rewrite Hb, Hs. simpl.
  split; [|split].
  - now rewrite startTime_or_zero.
  - reflexivity.
  - vm_compute. reflexivity.
Qed.

(** ** Tempo *)



(** ** Channel *)

Example channel_17_wraps :
  eventChannel (noteEvent Sample.song 0 Sample.startNote) = 1%float.
Proof. vm_compute. reflexivity. Qed.

Example default_channel_of_track_17 :
  eventChannel (noteEvent Sample.song 17 Sample.beatNote) = 1%float.
Proof. vm_compute. reflexivity. Qed.

(** C5 at a negative channel: [-1 % 16] is [-1] in JavaScript, so the note
    with [channel: -1] reaches the encoder with the channel [-1], which is
    not in [0, 15]. *)
Theorem negative_channel_not_reduced :
  buildTracks (normalizeComposition Sample.offChannel) =
    [[MidiWriter.setTempo 120; MidiWriter.setTimeSignature 4 4;
      MidiWriter.addEvent
        (MidiWriter.NoteEvent [Num 60] (Str "4") 100 (-1) "T0")]] /\
  JS.Number_rem (-1) 16 = (-1)%float /\
  validChannel (-1) = false.
Proof.
  vm_compute. repeat split.
Qed.

(** *** Channels that are reduced as intended *)

Section ChannelBound.
Local Open Scope Z_scope.

Lemma digits2_bound (m : positive) : Zpos m < 2 ^ Zpos (SpecFloat.digits2_pos m).
Proof.
  induction m; simpl SpecFloat.digits2_pos;
    rewrite ?Pos2Z.inj_succ, ?Z.pow_succ_r by lia; try lia.
Qed.

(** A float's mantissa has at most 53 bits, and its exponent is at least
    -1074. *)
Lemma valid_finite_bound (s : bool) (m : positive) (e : Z) :
  valid_binary (S754_finite s m e) = true -> Zpos m < 2 ^ 53 /\ -1074 <= e.
Proof.
  unfold SpecFloat.valid_binary, SpecFloat.bounded, SpecFloat.canonical_mantissa,
    SpecFloat.fexp, SpecFloat.emin.
  intros H. apply andb_prop in H as [H _]. apply Z.eqb_eq in H.
  pose proof (digits2_bound m) as Hd.
  assert (Zpos (SpecFloat.digits2_pos m) <= 53 /\ -1074 <= e) as [H1 H2]
    by (unfold prec, emax in *; lia).
  split; [|exact H2].
  eapply Z.lt_le_trans; [exact Hd|]. apply Z.pow_le_mono_r; lia.
Qed.

Lemma Prim2SF_16 : Prim2SF 16 = S754_finite false 4503599627370496 (-48).
Proof. vm_compute. reflexivity. Qed.

Lemma Prim2SF_15 : Prim2SF 15 = S754_finite false 8444249301319680 (-49).
Proof. vm_compute. reflexivity. Qed.

Lemma nonneg_sign (x : float) (s : bool) (m : positive) (e : Z) :
  Prim2SF x = S754_finite s m e -> (0 <=? x)%float = true -> s = false.
Proof.
  intros E. rewrite leb_spec, E.
  replace (Prim2SF 0) with (S754_zero false) by (vm_compute; reflexivity).
  destruct s; [discriminate|reflexivity].
Qed.

(** The remainders [1 * 2^48, ..., 15 * 2^48] at exponent -48 are the
    floats 1 to 15. *)
Lemma rem16_small (j : Z) (r : positive) :
  0 < j < 16 -> Zpos r = j * 2 ^ 48 ->
  validChannel (SF2Prim (S754_finite false r (-48))) = true.
Proof.
  intros Hj Hr.
  assert (Hcases : j = 1 \/ j = 2 \/ j = 3 \/ j = 4 \/ j = 5 \/ j = 6 \/ j = 7 \/
                   j = 8 \/ j = 9 \/ j = 10 \/ j = 11 \/ j = 12 \/ j = 13 \/
                   j = 14 \/ j = 15) by lia.
  repeat (destruct Hcases as [-> | Hcases];
          [injection Hr as ->; vm_compute; reflexivity|]).
  subst j. injection Hr as ->. vm_compute. reflexivity.
Qed.

Lemma scaled_integer (m : positive) (e : Z) :
  -48 <= e ->
  (0 <=? e) || (Zpos m mod 2 ^ (- e) =? 0) = true ->
  exists n, Zpos m * 2 ^ (e - -48) = n * 2 ^ 48.
Proof.
  intros Hge Hint.
  destruct (Z.le_gt_cases 0 e) as [H0|H0].
  - exists (Zpos m * 2 ^ e).
    replace (e - -48) with (e + 48) by lia. rewrite Z.pow_add_r by lia. ring.
  - apply orb_prop in Hint as [Hint|Hint]; [apply Z.leb_le in Hint; lia|].
    apply Z.eqb_eq in Hint.
    exists (Zpos m / 2 ^ (- e)).
    assert (Hq : Zpos m = 2 ^ (- e) * (Zpos m / 2 ^ (- e))).
    { rewrite (Z.div_mod (Zpos m) (2 ^ (- e))) at 1
        by (apply Z.pow_nonzero; lia).
      rewrite Hint. ring. }
    assert (Hp : 2 ^ 48 = 2 ^ (- e) * 2 ^ (e - -48)).
    { rewrite <- Z.pow_add_r by lia. f_equal. lia. }
    rewrite Hp. rewrite Hq at 1. ring.
Qed.

Lemma mod_2_52_scaled (n : Z) :
  (n * 2 ^ 48) mod 4503599627370496 = n mod 16 * 2 ^ 48.
Proof.
  replace 4503599627370496 with (16 * 2 ^ 48) by reflexivity.
  apply Z.mul_mod_distr_r; lia.
Qed.

Lemma mod_small_mantissa (m : positive) (e : Z) :
  e < -48 -> Zpos m < 2 ^ 53 ->
  Zpos m mod (4503599627370496 * 2 ^ (-48 - e)) = Zpos m.
Proof.
  intros He Hm. apply Z.mod_small. split; [lia|].
  replace 4503599627370496 with (2 ^ 52) by reflexivity.
  rewrite <- Z.pow_add_r by lia.
  eapply Z.lt_le_trans; [exact Hm|]. apply Z.pow_le_mono_r; lia.
Qed.

Lemma multiple_below_16 (m : positive) :
  Zpos m mod 2 ^ 49 = 0 -> Zpos m < 2 ^ 53 -> Zpos m <= 8444249301319680.
Proof.
  intros Hint Hm.
  pose proof (Z.div_mod (Zpos m) (2 ^ 49) ltac:(lia)) as Hq.
  rewrite Hint, Z.add_0_r in Hq.
  assert (Zpos m / 2 ^ 49 < 16) by (apply Z.div_lt_upper_bound; lia).
  replace 8444249301319680 with (2 ^ 49 * 15) by reflexivity. lia.
Qed.

(** An integer below 16 is at most 15. *)
Lemma small_integer_le_15 (x : float) (m : positive) (e : Z) :
  Prim2SF x = S754_finite false m e ->
  e < -48 -> Zpos m < 2 ^ 53 ->
  (0 <=? e) || (Zpos m mod 2 ^ (- e) =? 0) = true ->
  (x <=? 15)%float = true.
Proof.
  intros E Hlt Hm Hint.
  rewrite leb_spec, E, Prim2SF_15. unfold SpecFloat.SFleb, SpecFloat.SFcompare.
  destruct (Z.compare_spec e (-49)) as [He|Hc|Hc]; [|reflexivity|lia].
  rewrite Pos.compare_cont_spec.
  apply orb_prop in Hint as [Hint|Hint]; [apply Z.leb_le in Hint; lia|].
  apply Z.eqb_eq in Hint. rewrite He in Hint.
  pose proof (multiple_below_16 m Hint Hm) as Hle.
  destruct (Pos.compare_spec m 8444249301319680) as [H|H|H]; [reflexivity..|lia].
Qed.

(** For a non-negative whole number [x], [x % 16] lies in [0, 15]. *)
Lemma nonneg_integer_rem16 (x : float) :
  JS.Number_isInteger x = true -> (0 <=? x)%float = true ->
  validChannel (JS.Number_rem x 16) = true.
Proof.
  intros Hint Hpos. unfold JS.Number_isInteger in Hint. unfold JS.Number_rem.
  rewrite Prim2SF_16.
  pose proof (Prim2SF_valid x) as Hv.
  destruct (Prim2SF x) as [sz| | |s m e] eqn:E; try discriminate.
  - rewrite <- (SF2Prim_Prim2SF x), E. destruct sz; vm_compute; reflexivity.
  - assert (s = false) by (eapply nonneg_sign; eauto). subst s.
    destruct (valid_finite_bound _ _ _ Hv) as [Hm He].
    destruct (Z.le_gt_cases (-48) e) as [Hge|Hlt].
    + rewrite Z.min_r by lia. rewrite Z.sub_diag, Z.pow_0_r, Z.mul_1_r.
      destruct (scaled_integer m e Hge Hint) as [n ->].
      rewrite mod_2_52_scaled.
      pose proof (Z.mod_pos_bound n 16 eq_refl) as Hj.
      destruct (n mod 16 * 2 ^ 48) as [|r|r] eqn:Er.
      * vm_compute. reflexivity.
      * apply (rem16_small (n mod 16)); [lia|now symmetry].
      * lia.
    + rewrite Z.min_l by lia. rewrite Z.sub_diag, Z.pow_0_r, Z.mul_1_r.
      rewrite mod_small_mantissa by assumption.
      assert (Hx : SF2Prim (S754_finite false m e) = x)
        by (rewrite <- E; apply SF2Prim_Prim2SF).
      rewrite Hx. unfold validChannel. rewrite Hpos, andb_true_l.
      now apply (small_integer_le_15 x m e).
Qed.

End ChannelBound.

Lemma trackChannel_valid (trackIndex : nat) :
  validChannel (trackChannel trackIndex) = true.
Proof.
  unfold trackChannel.
  pose proof (Nat.mod_upper_bound trackIndex 16 ltac:(lia)) as Hlt.
  generalize dependent (trackIndex mod 16)%nat. intros k Hlt.
  do 16 (destruct k as [|k]; [vm_compute; reflexivity|]).
  lia.
Qed.

(** X1 (what holds of C5): the channel of a note is in [0, 15] when its
    [channel] is a non-negative whole number, however large, and when it
    has none. *)
Theorem channel_in_range (composition : MidiComposition) (i j : nat)
    (note : MidiNote) :
  noteAt composition i j = Some note ->
  match channel note with
  | Some ch => JS.Number_isInteger ch = true /\ (0 <=? ch)%float = true
  | None => True
  end ->
  exists track,
    buildTracks composition !! i = Some track /\
    MidiWriter.addEvent (noteEvent composition i note) ∈ track /\
    validChannel (eventChannel (noteEvent composition i note)) = true.
Proof.
  intros Hn Hch.
  destruct (noteEvent_in_buildTracks _ _ _ _ Hn) as (track & Ht & Hin).
  exists track. split; [exact Ht|]. split; [exact Hin|].
  simpl. unfold noteChannel. destruct (channel note) as [ch|].
  - destruct Hch as [Hint Hpos]. now apply nonneg_integer_rem16.
  - apply trackChannel_valid.
Qed.

(** ** Output path *)






(** *** [path.join] onto a normalised directory *)





























Example basename_examples :
  Path.basename "song.mid" = "song.mid" /\
  Path.basename "sub/dir/song.mid" = "song.mid" /\
  Path.basename "../../etc/song.mid" = "song.mid" /\
  Path.basename "sub/dir/" = "dir".
Proof. vm_compute. repeat split. Qed.

Example relative_paths_resolve_under_midi_files :
  resolveOutputPath Sample.proc Sample.disk "song.mid"
    = inr ("/home/u/midi-files/song.mid",
           {| Fs.dirs := Fs.dirs Sample.disk ∪ {[ "/home/u/midi-files" ]};
              Fs.files := ∅ |}) /\
  resolvedPath Sample.proc Sample.disk "../../etc/song.mid"
    = Some "/home/u/midi-files/song.mid" /\
  resolvedPath Sample.bare Sample.disk "sub/song.mid"
    = Some "/tmp/midi-files/song.mid".
Proof.
  split; [|split]; vm_compute; reflexivity.
Qed.

Lemma ancestors_self (fuel : nat) (p : string) : p ∈ Fs.ancestors fuel p.
Proof.
  destruct fuel; simpl; [apply list_elem_of_here|].
  destruct (String.eqb (Path.dirname p) p); apply list_elem_of_here.
Qed.

Lemma mkdirSync_creates (fs fs' : FileSystem) (p : string) :
  Fs.mkdirSync fs p = inr fs' ->
  p ∈ Fs.dirs fs' /\ Fs.dirs fs ⊆ Fs.dirs fs' /\ Fs.files fs' = Fs.files fs.
Proof.
  unfold Fs.mkdirSync.
  destruct (existsb _ _); [discriminate|]. intros [= <-]. simpl.
  pose proof (ancestors_self (String.length p) p). set_solver.
Qed.

Lemma resolveOutputPath_absolute (proc : Process) (fs : FileSystem) (p : string) :
  Path.isAbsolute p = true -> resolveOutputPath proc fs p = inr (p, fs).
Proof.
  intros Habs. unfold resolveOutputPath. now rewrite Habs.
Qed.

Lemma resolveOutputPath_relative (proc : Process) (fs fs' : FileSystem)
    (p out : string) :
  Path.isAbsolute p = false ->
  resolveOutputPath proc fs p = inr (out, fs') ->
  out = Path.join [Path.join [safeBaseDir proc; "midi-files"]; Path.basename p] /\
  Fs.existsSync fs' (Path.join [safeBaseDir proc; "midi-files"]) = true /\
  (Fs.existsSync fs (Path.join [safeBaseDir proc; "midi-files"]) = false ->
   Path.join [safeBaseDir proc; "midi-files"] ∈ Fs.dirs fs') /\
  Fs.dirs fs ⊆ Fs.dirs fs' /\ Fs.files fs' = Fs.files fs.
Proof.
  intros Hrel. unfold resolveOutputPath. rewrite Hrel.
  set (midiDir := Path.join [safeBaseDir proc; "midi-files"]).
  destruct (Fs.existsSync fs midiDir) eqn:Hex.
  - intros [= <- <-]. repeat split; auto. discriminate.
  - destruct (Fs.mkdirSync fs midiDir) as [e|fs1] eqn:Hmk; [discriminate|].
    intros [= <- <-].
    destruct (mkdirSync_creates _ _ _ Hmk) as (Hin & Hsub & Hfiles).
    repeat split; auto.
    unfold Fs.existsSync. now rewrite bool_decide_eq_true_2.
Qed.

Lemma createMidiFile_Ok (proc : Process) (fs fs' : FileSystem) (title : string)
    (c : MidiComposition) (p out : string) :
  createMidiFile proc fs title c p = (Ok out, fs') ->
  exists fs1,
    resolveOutputPath proc fs p = inr (out, fs1) /\
    Fs.dirs fs' = Fs.dirs fs1 /\
    Fs.files fs' = <[out := MidiWriter.buildFile (buildTracks c)]> (Fs.files fs1).
Proof.
  unfold createMidiFile.
  destruct (resolveOutputPath proc fs p) as [e|[out1 fs1]]; [discriminate|].
  unfold Fs.writeFileSync.
  destruct (bool_decide (out1 ∈ Fs.dirs fs1)); [discriminate|].
  destruct (bool_decide (Path.dirname out1 ∈ Fs.dirs fs1)); [|discriminate].
  intros [= <- <-]. exists fs1. auto.
Qed.


(** ** Determinism *)

Lemma normalizeNote_idempotent (note : MidiNote) :
  normalizeTime (normalizeDuration (normalizeTime (normalizeDuration note))) =
  normalizeTime (normalizeDuration note).
Proof.
  destruct note as [p b s t d v ch].
  destruct d as [x|str], t as [t|], s as [s|]; reflexivity.
Qed.

Lemma forEachNote_compose (f g : MidiNote -> MidiNote) (c : MidiComposition) :
  forEachNote f (forEachNote g c) = forEachNote (fun n => f (g n)) c.
Proof.
  unfold forEachNote. simpl. f_equal. rewrite map_map. simpl.
  apply map_ext. intros t. now rewrite map_map.
Qed.

Lemma forEachNote_ext (f g : MidiNote -> MidiNote) (c : MidiComposition) :
  (forall n, f n = g n) -> forEachNote f c = forEachNote g c.
Proof.
  intros Hfg. unfold forEachNote. f_equal.
  apply map_ext. intros t. f_equal. now apply map_ext.
Qed.

(** Normalising a normalised composition changes nothing. *)
Lemma normalizeComposition_idempotent (c : MidiComposition) :
  normalizeComposition (normalizeComposition c) = normalizeComposition c.
Proof.
  unfold normalizeComposition. rewrite !forEachNote_compose.
  apply forEachNote_ext, normalizeNote_idempotent.
Qed.

Lemma create_midi_Saved (proc : Process) (fs fs' : FileSystem)
    (title title' : string) (c : MidiComposition) (p out : string) :
  create_midi proc fs title c p = (Saved title' out, fs') ->
  createMidiFile proc fs title (normalizeComposition c) p = (Ok out, fs').
Proof.
  unfold create_midi.
  destruct (createMidiFile proc fs title (normalizeComposition c) p)
    as [[out1|e] fs1]; [|discriminate].
  now intros [= _ <- <-].
Qed.

(** C8: two runs of the tool on one normalised composition save the same
    file contents, whatever the environment, the file system, the title
    and the output path of each run (the second run may well start from
    the file system the first one left): the contents are the encoding of
    the tracks built from the composition, and of nothing else. *)
Theorem encoding_is_deterministic (proc1 proc2 : Process)
    (fs1 fs1' fs2 fs2' : FileSystem) (title1 title2 p1 p2 out1 out2 : string)
    (c0 : MidiComposition) :
  let c := normalizeComposition c0 in
  create_midi proc1 fs1 title1 c p1 = (Saved title1 out1, fs1') ->
  create_midi proc2 fs2 title2 c p2 = (Saved title2 out2, fs2') ->
  Fs.files fs1' !! out1 = Some (MidiWriter.buildFile (buildTracks c)) /\
  Fs.files fs2' !! out2 = Fs.files fs1' !! out1.
Proof.
  intros c H1 H2.
  apply create_midi_Saved in H1, H2.
  unfold c in H1, H2. rewrite normalizeComposition_idempotent in H1, H2.
  fold c in H1, H2.
  destruct (createMidiFile_Ok _ _ _ _ _ _ _ H1) as (g1 & _ & _ & Hf1).
  destruct (createMidiFile_Ok _ _ _ _ _ _ _ H2) as (g2 & _ & _ & Hf2).
  rewrite Hf1, Hf2, !lookup_insert_eq. auto.
Qed.

(** ** Batching *)

Section ChunkLemmas.
Context {T : Type}.

Lemma slice_step (array : list T) (i size : nat) :
  Batch.slice array i (i + size) = take size (drop i array).
Proof. unfold Batch.slice. f_equal. lia. Qed.

Lemma chunkLoop_concat (fuel : nat) (array : list T) (size i : nat)
    (chunks : list (list T)) :
  0 < size -> length array <= i + fuel ->
  concat (Batch.chunkLoop fuel array size i chunks) = concat chunks ++ drop i array.
Proof.
  intros Hsize. revert i chunks.
  induction fuel as [|fuel IH]; intros i chunks Hfuel; simpl.
  - rewrite drop_ge by lia. now rewrite app_nil_r.
  - destruct (Nat.ltb_spec i (length array)) as [Hlt|Hge].
    + rewrite IH by lia. rewrite concat_app, slice_step. simpl.
      rewrite app_nil_r, <- app_assoc. f_equal.
      rewrite <- drop_drop. apply take_drop.
    + rewrite drop_ge by lia. now rewrite app_nil_r.
Qed.

Lemma chunkLoop_lookup (fuel : nat) (array : list T) (size i : nat)
    (chunks : list (list T)) (k : nat) :
  0 < size -> length array <= i + fuel ->
  Batch.chunkLoop fuel array size i chunks !! k =
  if k <? length chunks then chunks !! k
  else if i + (k - length chunks) * size <? length array
       then Some (take size (drop (i + (k - length chunks) * size) array))
       else None.
Proof.
  intros Hsize. revert i chunks.
  induction fuel as [|fuel IH]; intros i chunks Hfuel; simpl.
  - destruct (Nat.ltb_spec k (length chunks)) as [Hk|Hk]; [reflexivity|].
    rewrite lookup_ge_None_2 by lia.
    destruct (Nat.ltb_spec (i + (k - length chunks) * size) (length array));
      [nia|reflexivity].
  - destruct (Nat.ltb_spec i (length array)) as [Hlt|Hge].
    + rewrite IH by lia. rewrite length_app. simpl.
      destruct (Nat.ltb_spec k (length chunks)) as [Hk|Hk].
      * destruct (Nat.ltb_spec k (length chunks + 1)); [|lia].
        now rewrite lookup_app_l.
      * destruct (Nat.ltb_spec k (length chunks + 1)) as [Hk1|Hk1].
        -- assert (k = length chunks) as -> by lia.
           rewrite lookup_app_r, Nat.sub_diag by lia. simpl.
           rewrite Nat.add_0_r.
           destruct (Nat.ltb_spec i (length array)); [|lia].
           now rewrite slice_step.
        -- replace (i + size + (k - (length chunks + 1)) * size)
             with (i + (k - length chunks) * size) by nia.
           reflexivity.
    + destruct (Nat.ltb_spec k (length chunks)) as [Hk|Hk]; [reflexivity|].
      rewrite lookup_ge_None_2 by lia.
      destruct (Nat.ltb_spec (i + (k - length chunks) * size) (length array));
        [nia|reflexivity].
Qed.

(** The loop has ended by itself when the fuel is used up: more fuel gives
    the same chunks. *)
Lemma chunkLoop_fuel (fuel : nat) (array : list T) (size : nat) :
  0 < size -> length array <= fuel ->
  Batch.chunkLoop fuel array size 0 [] = Batch.chunkArray array size.
Proof.
  intros Hsize Hfuel. apply list_eq. intros k. unfold Batch.chunkArray.
  now rewrite !chunkLoop_lookup by lia.
Qed.

Lemma chunkArray_lookup (array : list T) (size k : nat) :
  0 < size ->
  Batch.chunkArray array size !! k =
  if k * size <? length array
  then Some (Batch.slice array (k * size) (k * size + size))
  else None.
Proof.
  intros Hsize. unfold Batch.chunkArray.
  rewrite chunkLoop_lookup by lia. simpl. rewrite Nat.sub_0_r.
  now rewrite slice_step.
Qed.

Lemma chunk_count (n size k : nat) :
  0 < size -> k * size < n <-> k < (n + size - 1) / size.
Proof.
  intros Hsize. split; intros Hk.
  - apply Nat.div_le_lower_bound; [lia|]. nia.
  - assert (k + 1 <= (n + size - 1) / size) as Hle by lia.
    pose proof (Nat.Div0.mul_div_le (n + size - 1) size). nia.
Qed.

Lemma chunkArray_length (array : list T) (size : nat) :
  0 < size ->
  length (Batch.chunkArray array size) = (length array + size - 1) / size.
Proof.
  intros Hsize.
  set (n := (length array + size - 1) / size).
  destruct (Nat.lt_trichotomy (length (Batch.chunkArray array size)) n)
    as [Hlt|[Heq|Hgt]]; [|exact Heq|].
  - exfalso.
    pose proof (chunkArray_lookup array size
                  (length (Batch.chunkArray array size)) Hsize) as Hl.
    rewrite lookup_ge_None_2 in Hl by lia.
    apply (chunk_count (length array)) in Hlt; [|exact Hsize].
    apply Nat.ltb_lt in Hlt. rewrite Hlt in Hl. discriminate.
  - exfalso.
    destruct (lookup_lt_is_Some_2 (Batch.chunkArray array size) n Hgt) as [c Hc].
    rewrite chunkArray_lookup in Hc by exact Hsize.
    destruct (Nat.ltb_spec (n * size) (length array)) as [H|H]; [|discriminate].
    apply chunk_count in H; [|exact Hsize]. unfold n in H. lia.
Qed.

Lemma chunkArray_chunk_length (array : list T) (size k : nat) (chunk : list T) :
  0 < size ->
  Batch.chunkArray array size !! k = Some chunk ->
  length chunk = Nat.min size (length array - k * size) /\ k * size < length array.
Proof.
  intros Hsize. rewrite chunkArray_lookup by exact Hsize.
  destruct (Nat.ltb_spec (k * size) (length array)) as [Hk|Hk]; [|discriminate].
  intros [= <-]. rewrite slice_step, length_take, length_drop. auto.
Qed.

End ChunkLemmas.

Example chunkArray_example :
  Batch.chunkArray [1; 2; 3; 4; 5] 2 = [[1; 2]; [3; 4]; [5]] /\
  Batch.chunkArray ([] : list nat) 2 = [].
Proof. split; reflexivity. Qed.

(** X2: [chunkArray] loses nothing and invents nothing: for a positive size the
    chunks, put end to end, are the array; and the loop needs no more
    rounds than the array has elements. *)
Theorem chunkArray_concat {T : Type} (array : list T) (size : nat) :
  0 < size ->
  concat (Batch.chunkArray array size) = array /\
  (forall fuel, length array <= fuel ->
     Batch.chunkLoop fuel array size 0 [] = Batch.chunkArray array size).
Proof.
  intros Hsize. split.
  - unfold Batch.chunkArray. rewrite chunkLoop_concat by lia. reflexivity.
  - intros fuel. now apply chunkLoop_fuel.
Qed.

(** X3: the chunks [chunkArray] makes of an array for a positive size: there
    are [ceil (length / size)] of them, none for the empty array; chunk [k]
    is [array.slice(k * size, k * size + size)]; no chunk is empty, every
    chunk but the last holds exactly [size] elements and the last at most
    [size]. *)
Theorem chunkArray_chunks {T : Type} (array : list T) (size : nat) :
  0 < size ->
  length (Batch.chunkArray array size) = (length array + size - 1) / size /\
  (array = [] -> Batch.chunkArray array size = []) /\
  (forall k chunk,
     Batch.chunkArray array size !! k = Some chunk ->
     chunk = Batch.slice array (k * size) (k * size + size) /\
     0 < length chunk <= size /\
     (S k < length (Batch.chunkArray array size) -> length chunk = size)).
Proof.
  intros Hsize. split; [now apply chunkArray_length|]. split.
  - intros ->. reflexivity.
  - intros k chunk Hk.
    destruct (chunkArray_chunk_length _ _ _ _ Hsize Hk) as [Hlen Hlt].
    split; [|split].
    + rewrite chunkArray_lookup in Hk by exact Hsize.
      apply Nat.ltb_lt in Hlt. rewrite Hlt in Hk. congruence.
    + lia.
    + rewrite chunkArray_length by exact Hsize. intros Hnext.
      apply chunk_count in Hnext; [|exact Hsize]. simpl in Hnext. lia.
Qed.

Lemma trackWork_notes (track : MidiTrack) :
  concat (Batch.workNotes <$> Batch.trackWork track) = notes track.
Proof.
  unfold Batch.trackWork.
  destruct (Batch.batchSize <? length (notes track)).
  - rewrite <- list_fmap_compose.
    change (Batch.workNotes ∘ Batch.NoteChunk) with (@id (list MidiNote)).
    rewrite list_fmap_id. unfold Batch.chunkArray.
    rewrite chunkLoop_concat; [reflexivity|unfold Batch.batchSize; lia|lia].
  - simpl. apply app_nil_r.
Qed.

(** X4: what [processMidiComposition] hands on, and what it reports: for every
    track, in order, work units that hold the notes of the track, each
    once and in order (the track itself when it has at most 50 notes,
    otherwise [ceil (n / 50)] chunks of 1 to 50 notes), and one
    notification that counts the tracks done so far out of all. A
    composition without tracks gives no work and no notification. *)
Theorem processMidiComposition_covers (c : MidiComposition) :
  length (fst (processMidiComposition c)) = length (tracks c) /\
  length (snd (processMidiComposition c)) = length (tracks c) /\
  (forall i t,
     tracks c !! i = Some t ->
     exists units,
       fst (processMidiComposition c) !! i = Some units /\
       snd (processMidiComposition c) !! i =
         Some (TrackProgress (trackProgress (S i) (length (tracks c)))
                 (S i) (length (tracks c))) /\
       concat (Batch.workNotes <$> units) = notes t /\
       (length (notes t) <= 50 -> units = [Batch.WholeTrack t]) /\
       (50 < length (notes t) ->
          length units = (length (notes t) + 49) / 50 /\
          forall w, w ∈ units ->
            exists ns, w = Batch.NoteChunk ns /\ 0 < length ns <= 50)).
Proof.
  unfold processMidiComposition. simpl.
  split; [now rewrite length_fmap|]. split; [now rewrite length_imap|].
  intros i t Hi. exists (Batch.trackWork t).
  rewrite list_lookup_fmap, list_lookup_imap, Hi. simpl.
  split; [reflexivity|]. split; [reflexivity|].
  split; [apply trackWork_notes|].
  unfold Batch.trackWork, Batch.batchSize.
  destruct (Nat.ltb_spec 50 (length (notes t))) as [Hbig|Hsmall].
  - split; [lia|]. intros _. split.
    + rewrite length_fmap, chunkArray_length by lia.
      now replace (length (notes t) + 50 - 1) with (length (notes t) + 49) by lia.
    + intros w Hw. apply list_elem_of_fmap in Hw as (ns & -> & Hns).
      exists ns. split; [reflexivity|].
      apply list_elem_of_lookup in Hns as [k Hk].
      apply chunkArray_chunk_length in Hk as [Hlen Hlt]; lia.
  - split; [reflexivity|lia].
Qed.

(** ** What [createMidiFile] leaves behind *)

(** X5: what a successful [createMidiFile] does to the file system. When it
    returns a path, that path holds the encoding of the composition's
    tracks (a file already there is overwritten), every other file is as it
    was, the path is not a directory and its directory exists, and no
    directory has been removed. *)
Theorem createMidiFile_frame (proc : Process) (fs fs' : FileSystem)
    (title : string) (c : MidiComposition) (p out : string) :
  createMidiFile proc fs title c p = (Ok out, fs') ->
  Fs.files fs' = <[out := MidiWriter.buildFile (buildTracks c)]> (Fs.files fs) /\
  (forall q, q <> out -> Fs.files fs' !! q = Fs.files fs !! q) /\
  (out ∉ Fs.dirs fs') /\ Path.dirname out ∈ Fs.dirs fs' /\
  Fs.dirs fs ⊆ Fs.dirs fs'.
Proof.
  unfold createMidiFile.
  destruct (resolveOutputPath proc fs p) as [e|[out1 fs1]] eqn:Er; [discriminate|].
  assert (Hres : Fs.dirs fs ⊆ Fs.dirs fs1 /\ Fs.files fs1 = Fs.files fs).
  { destruct (Path.isAbsolute p) eqn:Habs.
    - rewrite resolveOutputPath_absolute in Er by exact Habs.
      injection Er as <- <-. auto.
    - destruct (resolveOutputPath_relative _ _ _ _ _ Habs Er) as (_ & _ & _ & ? & ?).
      auto. }
  destruct Hres as [Hsub Hfiles].
  unfold Fs.writeFileSync.
  destruct (bool_decide (out1 ∈ Fs.dirs fs1)) eqn:Hd; [discriminate|].
  destruct (bool_decide (Path.dirname out1 ∈ Fs.dirs fs1)) eqn:Hp; [|discriminate].
  intros [= <- <-]. simpl. rewrite Hfiles.
  apply bool_decide_eq_false in Hd. apply bool_decide_eq_true in Hp.
  split; [reflexivity|]. split; [|auto].
  intros q Hq. now rewrite lookup_insert_ne.
Qed.

(** X6: for an absolute output path no directory is made: when the path is
    in normal form and its directory does not exist, or the path is itself
    a directory, [createMidiFile] throws an [InternalError] and leaves the
    file system as it was, whatever the composition and the environment. *)
Theorem absolute_path_needs_its_directory (proc : Process) (fs : FileSystem)
    (title : string) (c : MidiComposition) (p : string) :
  Path.isAbsolute p = true ->
  Path.normalize p = p ->
  Path.dirname p ∉ Fs.dirs fs \/ p ∈ Fs.dirs fs ->
  exists cause,
    createMidiFile proc fs title c p = (Throw (mcpError InternalError cause), fs).
Proof.
  intros Habs _ Hbad. unfold createMidiFile.
  rewrite resolveOutputPath_absolute by exact Habs.
  unfold Fs.writeFileSync.
  destruct (bool_decide (p ∈ Fs.dirs fs)) eqn:Hd; [eauto|].
  destruct (bool_decide (Path.dirname p ∈ Fs.dirs fs)) eqn:Hp; [|eauto].
  apply bool_decide_eq_false in Hd. apply bool_decide_eq_true in Hp. tauto.
Qed.

(** ** The tracks handed to the encoder *)

Lemma buildTrack_header (c : MidiComposition) (i : nat) (t : MidiTrack) :
  exists header,
    buildTrack c i t =
      header ++ ((fun n => MidiWriter.addEvent (noteEvent c i n)) <$> notes t) /\
    Forall (fun call => isNoteCall call = false) header /\
    MidiWriter.setTempo (trackTempo c) ∈ header /\
    (exists n d, MidiWriter.setTimeSignature n d ∈ header /\
       (timeSignature c = None -> n = 4%float /\ d = 4%float)) /\
    (forall ins, instrument t = Some ins ->
       MidiWriter.addEvent (MidiWriter.ProgramChangeEvent ins (trackChannel i))
         ∈ header) /\
    (forall n, MidiWriter.addTrackName n ∈ header <-> name t = Some n /\ n <> "").
Proof.
  unfold buildTrack.
  set (nm := match name t with
             | Some n => if String.eqb n "" then [] else [MidiWriter.addTrackName n]
             | None => []
             end).
  set (ts := match timeSignature c with
             | Some ts => ts
             | None => {| numerator := 4; denominator := 4 |}
             end).
  set (pc := match instrument t with
             | Some i0 => [MidiWriter.addEvent
                             (MidiWriter.ProgramChangeEvent i0 (trackChannel i))]
             | None => []
             end).
  exists (nm ++ [MidiWriter.setTempo (trackTempo c)] ++
          [MidiWriter.setTimeSignature (numerator ts) (denominator ts)] ++ pc).
  split; [now rewrite <- !app_assoc|].
  split; [|split; [|split; [|split]]].
  - rewrite !Forall_app. repeat split.
    + unfold nm. destruct (name t) as [n|]; [|constructor].
      destruct (String.eqb n ""); repeat constructor.
    + repeat constructor.
    + repeat constructor.
    + unfold pc. destruct (instrument t); repeat constructor.
  - set_solver.
  - exists (numerator ts), (denominator ts). split; [set_solver|].
    unfold ts. now intros ->.
  - intros ins Hins. unfold pc. rewrite Hins. set_solver.
  - intros n. rewrite !elem_of_app. unfold nm, pc. split.
    + intros [H|[H|[H|H]]].
      * destruct (name t) as [n'|]; [|set_solver].
        destruct (String.eqb_spec n' ""); [set_solver|].
        apply list_elem_of_singleton in H. injection H as ->. auto.
      * apply list_elem_of_singleton in H. discriminate.
      * apply list_elem_of_singleton in H. discriminate.
      * destruct (instrument t); [apply list_elem_of_singleton in H|apply elem_of_nil in H];
          [discriminate|contradiction].
    + intros [-> Hne]. left.
      destruct (String.eqb_spec n ""); [contradiction|set_solver].
Qed.

(** X7: the tracks of a saved file. When [createMidiFile] returns a path,
    the file there is the encoding of one track for every track of the
    composition, in order, notes or no notes. Each starts with a header
    that holds no note event but always the tempo [bpm || tempo || 120] and
    a time signature (4/4 when the composition has none), the program
    change whenever [instrument] is present (0 included), and the track
    name only when [name] is a non-empty string. After the header come the
    note events, one for every note, in the order of the notes. *)
Theorem tracks_built_in_order (proc : Process) (fs fs' : FileSystem)
    (title : string) (c : MidiComposition) (p out : string) :
  createMidiFile proc fs title c p = (Ok out, fs') ->
  exists built,
    Fs.files fs' !! out = Some (MidiWriter.buildFile built) /\
    length built = length (tracks c) /\
    (forall i t,
       tracks c !! i = Some t ->
       exists header,
         built !! i =
           Some (header ++
                 ((fun n => MidiWriter.addEvent (noteEvent c i n)) <$> notes t)) /\
         Forall (fun call => isNoteCall call = false) header /\
         MidiWriter.setTempo (trackTempo c) ∈ header /\
         (exists n d, MidiWriter.setTimeSignature n d ∈ header /\
            (timeSignature c = None -> n = 4%float /\ d = 4%float)) /\
         (forall ins, instrument t = Some ins ->
            MidiWriter.addEvent
              (MidiWriter.ProgramChangeEvent ins (trackChannel i)) ∈ header) /\
         (forall n, MidiWriter.addTrackName n ∈ header <->
                    name t = Some n /\ n <> "")).
Proof.
  intros Hrun.
  destruct (createMidiFile_Ok _ _ _ _ _ _ _ Hrun) as (fs1 & _ & _ & Hfiles).
  exists (buildTracks c).
  split; [rewrite Hfiles; apply lookup_insert_eq|].
  split; [unfold buildTracks; now rewrite length_imap|].
  intros i t Hi.
  destruct (buildTrack_header c i t) as (header & Heq & H).
  exists header. split; [|exact H].
  unfold buildTracks. now rewrite list_lookup_imap, Hi, <- Heq.
Qed.

Lemma duration_normalized (note : MidiNote) :
  exists s, duration (normalizeTime (normalizeDuration note)) = Str s.
Proof.
  rewrite duration_normalizeTime. unfold normalizeDuration.
  destruct (duration note) as [d|s] eqn:Ed; simpl; eauto.
Qed.

(** X8: after the handler's passes no numeric duration reaches the encoder:
    every [NoteEvent] of every track built from a normalised composition
    has a string as its [duration]. *)
Theorem encoder_gets_string_durations (c : MidiComposition) :
  Forall (fun track => Forall (fun call => stringDuration call = true) track)
         (buildTracks (normalizeComposition c)).
Proof.
  apply Forall_forall. intros track Htrack.
  unfold buildTracks in Htrack.
  apply elem_of_lookup_imap in Htrack as (i & t & -> & Hi).
  assert (Hnotes : Forall (fun n => exists s, duration n = Str s) (notes t)).
  { apply Forall_forall. intros n Hn.
    apply list_elem_of_lookup in Hn as [j Hj].
    assert (Hat : noteAt (normalizeComposition c) i j = Some n).
    { unfold noteAt. rewrite Hi. exact Hj. }
    rewrite noteAt_normalizeComposition in Hat.
    destruct (noteAt c i j) as [n0|]; [|discriminate].
    injection Hat as <-. apply duration_normalized. }
  destruct (buildTrack_header (normalizeComposition c) i t) as (header & -> & Hh & _).
  apply Forall_app. split.
  - eapply Forall_impl; [exact Hh|].
    intros [| | |[|p [d|s] v ch w]]; simpl; congruence.
  - apply Forall_fmap. eapply Forall_impl; [exact Hnotes|].
    intros n [s Hs]. simpl. now rewrite Hs.
Qed.

(** ** A beat without [bpm] *)

Lemma div_nan (x : float) : (x / nan)%float = nan.
Proof.
  apply Prim2SF_inj. rewrite div_spec.
  replace (Prim2SF nan) with S754_nan by (vm_compute; reflexivity).
  unfold SF64div, SFdiv. now destruct (Prim2SF x) as [[|]|[|]| |[|] m e].
Qed.

(** X9: the beat formula divides by the composition's [bpm] field, not by the
    tempo given to the track: in a composition without [bpm] every note
    placed by [beat] waits ["TNaN"], whatever its beat, and a [tempo] field
    does not help. *)
Theorem beat_without_bpm (c : MidiComposition) (i j : nat) (note : MidiNote)
    (b : float) :
  noteAt c i j = Some note ->
  beat note = Some b ->
  bpm c = None ->
  eventWait (noteEvent c i note) = "TNaN" /\
  (forall t, eventWait (noteEvent (withTempo c None t) i note) = "TNaN").
Proof.
  intros _ Hb Hbpm.
  assert (Hw : convertBeatToWait b nan = "TNaN").
  { unfold convertBeatToWait. rewrite div_nan. vm_compute. reflexivity. }
  split.
  - simpl. unfold noteWait. rewrite Hb, Hbpm. exact Hw.
  - intros t. simpl. unfold noteWait. rewrite Hb. exact Hw.
Qed.

(** ** Objects *)

Lemma getProp_setProp_eq (props : list (string * JsValue)) (k : string) (v : JsValue) :
  getProp (setProp props k v) k = Some v.
Proof.
  induction props as [|[k' v'] rest IH]; simpl.
  - now rewrite String.eqb_refl.
  - destruct (String.eqb k' k) eqn:E; simpl.
    + now rewrite String.eqb_refl.
    + now rewrite E.
Qed.

Lemma getProp_setProp_ne (props : list (string * JsValue)) (k k' : string)
    (v : JsValue) :
  k <> k' -> getProp (setProp props k v) k' = getProp props k'.
Proof.
  intros Hne. induction props as [|[k0 v0] rest IH]; simpl.
  - now rewrite (proj2 (String.eqb_neq k k') Hne).
  - destruct (String.eqb_spec k0 k) as [->|Hk0]; simpl.
    + now rewrite (proj2 (String.eqb_neq k k') Hne).
    + now rewrite IH.
Qed.

Lemma getProp_deleteProp_eq (props : list (string * JsValue)) (k : string) :
  getProp (deleteProp props k) k = None.
Proof.
  induction props as [|[k0 v0] rest IH]; simpl; [reflexivity|].
  destruct (String.eqb k0 k) eqn:E; simpl; [exact IH|]. now rewrite E.
Qed.

Lemma getProp_deleteProp_ne (props : list (string * JsValue)) (k k' : string) :
  k <> k' -> getProp (deleteProp props k) k' = getProp props k'.
Proof.
  intros Hne. induction props as [|[k0 v0] rest IH]; simpl; [reflexivity|].
  destruct (String.eqb_spec k0 k) as [->|Hk0]; simpl.
  - now rewrite (proj2 (String.eqb_neq k k') Hne).
  - now rewrite IH.
Qed.

(** Writing back the value a key holds changes nothing. *)
Lemma setProp_same (props : list (string * JsValue)) (k : string) (v : JsValue) :
  getProp props k = Some v -> setProp props k v = props.
Proof.
  induction props as [|[k0 v0] rest IH]; simpl; [discriminate|].
  destruct (String.eqb_spec k0 k) as [->|Hk0].
  - now intros [= ->].
  - intros H. now rewrite IH.
Qed.

Lemma setProp_setProp (props : list (string * JsValue)) (k : string)
    (v1 v2 : JsValue) :
  setProp (setProp props k v1) k v2 = setProp props k v2.
Proof.
  induction props as [|[k0 v0] rest IH]; simpl.
  - now rewrite String.eqb_refl.
  - destruct (String.eqb k0 k) eqn:E; simpl.
    + now rewrite String.eqb_refl.
    + now rewrite E, IH.
Qed.

(** ** The passes *)

Lemma mapThrow_accepted {A B : Type} (f : A -> Thrown + B) (l : list A) :
  accepted (mapThrow f l) = forallb (fun x => accepted (f x)) l.
Proof.
  induction l as [|x rest IH]; simpl; [reflexivity|].
  destruct (f x); simpl; [reflexivity|].
  rewrite <- IH. now destruct (mapThrow f rest).
Qed.

Lemma mapThrow_inr {A B : Type} (f : A -> Thrown + B) (l : list A) (l' : list B) :
  mapThrow f l = inr l' <-> Forall2 (fun x y => f x = inr y) l l'.
Proof.
  revert l'. induction l as [|x rest IH]; intros l'; simpl.
  - split; [intros [= <-]; constructor|intros H; now inversion H].
  - split.
    + destruct (f x) as [e|y] eqn:Ex; [discriminate|].
      destruct (mapThrow f rest) as [e|ys]; [discriminate|].
      intros [= <-]. constructor; [exact Ex|now apply IH].
    + intros H. inversion H as [|? y ? ys Hx Hrest]; subst.
      rewrite Hx. apply IH in Hrest. now rewrite Hrest.
Qed.

Lemma mapThrow_TypeError {A B : Type} (f : A -> Thrown + B) (l : list A) (e : Thrown) :
  (forall x e', f x = inl e' -> e' = TypeError) ->
  mapThrow f l = inl e -> e = TypeError.
Proof.
  intros Hf. induction l as [|x rest IH]; simpl; [discriminate|].
  destruct (f x) as [e'|y] eqn:Ex.
  - intros [= <-]. eauto.
  - destruct (mapThrow f rest) as [e'|ys]; [|discriminate].
    intros [= <-]. auto.
Qed.

Lemma forEachNoteOfTrack_inr (f : JsValue -> Thrown + JsValue) (track track' : JsValue) :
  forEachNoteOfTrack f track = inr track' <->
  exists props notes notes',
    track = JObject props /\
    getProp props "notes" = Some (JArray notes) /\
    Forall2 (fun n n' => f n = inr n') notes notes' /\
    track' = JObject (setProp props "notes" (JArray notes')).
Proof.
  unfold forEachNoteOfTrack. split.
  - destruct track as [|b|x|s|items|props]; simpl; try discriminate.
    destruct (getProp props "notes") as [[|b|x|s|notes|ps]|] eqn:En; simpl;
      try discriminate.
    destruct (mapThrow f notes) as [e|notes'] eqn:Em; [discriminate|].
    intros [= <-]. exists props, notes, notes'. rewrite <- mapThrow_inr. auto.
  - intros (props & notes & notes' & -> & En & Hf & ->). simpl. rewrite En. simpl.
    apply mapThrow_inr in Hf. now rewrite Hf.
Qed.

Lemma forEachNoteJs_inr (f : JsValue -> Thrown + JsValue) (v v' : JsValue) :
  forEachNoteJs f v = inr v' <->
  exists props tracks tracks',
    v = JObject props /\
    getProp props "tracks" = Some (JArray tracks) /\
    Forall2 (fun t t' => forEachNoteOfTrack f t = inr t') tracks tracks' /\
    v' = JObject (setProp props "tracks" (JArray tracks')).
Proof.
  unfold forEachNoteJs. split.
  - destruct v as [|b|x|s|items|props]; simpl; try discriminate.
    destruct (getProp props "tracks") as [[|b|x|s|tracks|ps]|] eqn:En; simpl;
      try discriminate.
    destruct (mapThrow (forEachNoteOfTrack f) tracks) as [e|tracks'] eqn:Em;
      [discriminate|].
    intros [= <-]. exists props, tracks, tracks'. rewrite <- mapThrow_inr. auto.
  - intros (props & tracks & tracks' & -> & En & Hf & ->). simpl. rewrite En. simpl.
    apply mapThrow_inr in Hf. now rewrite Hf.
Qed.

Lemma forallb_pointwise {A : Type} (f g : A -> bool) (l : list A) :
  (forall x, f x = g x) -> forallb f l = forallb g l.
Proof. intros H. induction l; simpl; [reflexivity|]. now rewrite H, IHl. Qed.

Lemma forEachNoteOfTrack_accepted (f : JsValue -> Thrown + JsValue) (track : JsValue) :
  accepted (forEachNoteOfTrack f track) =
  trackShapedBy (fun n => accepted (f n)) track.
Proof.
  unfold forEachNoteOfTrack.
  destruct track as [|b|x|s|items|props]; simpl; try reflexivity.
  destruct (getProp props "notes") as [[|b|x|s|notes|ps]|]; simpl; try reflexivity.
  rewrite <- mapThrow_accepted. now destruct (mapThrow f notes).
Qed.

Lemma forEachNoteJs_accepted (f : JsValue -> Thrown + JsValue) (v : JsValue) :
  accepted (forEachNoteJs f v) = compositionShapedBy (fun n => accepted (f n)) v.
Proof.
  unfold forEachNoteJs.
  destruct v as [|b|x|s|items|props]; simpl; try reflexivity.
  destruct (getProp props "tracks") as [[|b|x|s|tracks|ps]|]; simpl; try reflexivity.
  rewrite (forallb_pointwise _ (fun t => accepted (forEachNoteOfTrack f t)))
    by (intros t; now rewrite forEachNoteOfTrack_accepted).
  rewrite <- mapThrow_accepted.
  now destruct (mapThrow (forEachNoteOfTrack f) tracks).
Qed.

Lemma compositionShapedBy_ext (ok ok' : JsValue -> bool) (v : JsValue) :
  (forall n, ok n = ok' n) -> compositionShapedBy ok v = compositionShapedBy ok' v.
Proof.
  intros H. destruct v as [|b|x|s|items|props]; simpl; try reflexivity.
  destruct (getProp props "tracks") as [[|b|x|s|tracks|ps]|]; try reflexivity.
  apply forallb_pointwise. intros t.
  destruct t as [|b|x|s|items|tp]; simpl; try reflexivity.
  destruct (getProp tp "notes") as [[|b|x|s|notes|ps]|]; try reflexivity.
  now apply forallb_pointwise.
Qed.

Lemma forallb_Forall2 {A : Type} (ok ok' : A -> bool) (R : A -> A -> Prop)
    (l l' : list A) :
  (forall x y, R x y -> ok' y = ok x) ->
  Forall2 R l l' -> forallb ok' l' = forallb ok l.
Proof.
  intros H HF. induction HF as [|x y l l' Hxy _ IH]; simpl; [reflexivity|].
  now rewrite (H x y Hxy), IH.
Qed.

(** A pass keeps the shape when its body does. *)
Lemma forEachNoteJs_shape (f : JsValue -> Thrown + JsValue) (ok ok' : JsValue -> bool)
    (v v' : JsValue) :
  (forall n n', f n = inr n' -> ok' n' = ok n) ->
  forEachNoteJs f v = inr v' ->
  compositionShapedBy ok' v' = compositionShapedBy ok v.
Proof.
  intros Hf Hv.
  apply forEachNoteJs_inr in Hv as (props & tracks & tracks' & -> & Et & HF & ->).
  simpl. rewrite getProp_setProp_eq, Et.
  eapply forallb_Forall2; [|exact HF]. intros t t' Ht. simpl in Ht.
  apply forEachNoteOfTrack_inr in Ht as (tp & notes & notes' & -> & En & HN & ->).
  simpl. rewrite getProp_setProp_eq, En.
  exact (forallb_Forall2 _ _ _ _ _ Hf HN).
Qed.

Lemma normalizeDurationJs_shape (n n' : JsValue) :
  normalizeDurationJs n = inr n' -> noteShaped n' = noteShaped n.
Proof.
  destruct n as [|b|x|s|items|props]; simpl; try (intros [= <-]; reflexivity).
  destruct (getProp props "duration") as [[|b|x|s|items|ps]|];
    intros [= <-]; reflexivity.
Qed.

Lemma normalizeTimeJs_shape (n n' : JsValue) :
  normalizeTimeJs n = inr n' -> noteShaped n' = true.
Proof.
  destruct n as [|b|x|s|items|props]; simpl; try discriminate.
  - intros [= <-]. reflexivity.
  - destruct (getProp props "time"), (getProp props "startTime");
      intros [= <-]; reflexivity.
Qed.

Lemma normalizeTimeJs_accepted (n : JsValue) :
  accepted (normalizeTimeJs n) = noteShaped n.
Proof.
  destruct n as [|b|x|s|items|props]; simpl; try reflexivity.
  now destruct (getProp props "time"), (getProp props "startTime").
Qed.

Lemma noteShaped_durationJs (n : JsValue) :
  noteShaped n = true -> accepted (normalizeDurationJs n) = true.
Proof.
  destruct n as [|b|x|s|items|props]; simpl; try discriminate; try reflexivity.
  now destruct (getProp props "duration") as [[|b|x|s|items|ps]|].
Qed.

Lemma compositionShapedBy_mono (ok ok' : JsValue -> bool) (v : JsValue) :
  (forall n, ok n = true -> ok' n = true) ->
  compositionShapedBy ok v = true -> compositionShapedBy ok' v = true.
Proof.
  intros H. destruct v as [|b|x|s|items|props]; simpl; try discriminate.
  destruct (getProp props "tracks") as [[|b|x|s|tracks|ps]|]; try discriminate.
  rewrite !forallb_forall. intros Ht t Hin. specialize (Ht t Hin).
  destruct t as [|b|x|s|items|tp]; simpl in *; try discriminate.
  destruct (getProp tp "notes") as [[|b|x|s|notes|ps]|]; try discriminate.
  rewrite forallb_forall in *. auto.
Qed.

Lemma forEachNoteJs_TypeError (f : JsValue -> Thrown + JsValue) (v : JsValue)
    (e : Thrown) :
  (forall n e', f n = inl e' -> e' = TypeError) ->
  forEachNoteJs f v = inl e -> e = TypeError.
Proof.
  intros Hf. unfold forEachNoteJs.
  destruct v as [|b|x|s|items|props]; simpl; try (intros [= <-]; reflexivity).
  destruct (getProp props "tracks") as [[|b|x|s|tracks|ps]|]; simpl;
    try (intros [= <-]; reflexivity).
  destruct (mapThrow (forEachNoteOfTrack f) tracks) as [e'|tracks'] eqn:Em;
    [|discriminate].
  intros [= <-]. eapply mapThrow_TypeError; [|exact Em]. clear Em.
  intros t e1 Ht. unfold forEachNoteOfTrack in Ht.
  destruct t as [|b|x|s|items|tp]; simpl in Ht; try (injection Ht as <-; reflexivity).
  destruct (getProp tp "notes") as [[|b|x|s|notes|ps]|]; simpl in Ht;
    try (injection Ht as <-; reflexivity).
  destruct (mapThrow f notes) as [e''|notes'] eqn:En; [|discriminate].
  injection Ht as <-. exact (mapThrow_TypeError _ _ _ Hf En).
Qed.

Lemma normalizeJs_accepted (v : JsValue) :
  accepted (normalizeJs v) = compositionShaped v.
Proof.
  unfold normalizeJs, compositionShaped.
  destruct (forEachNoteJs normalizeDurationJs v) as [e|v1] eqn:E1.
  - simpl. symmetry. apply not_true_is_false. intros Hs.
    apply (compositionShapedBy_mono _ (fun n => accepted (normalizeDurationJs n)))
      in Hs; [|apply noteShaped_durationJs].
    rewrite <- forEachNoteJs_accepted, E1 in Hs. discriminate.
  - rewrite forEachNoteJs_accepted.
    rewrite (compositionShapedBy_ext _ noteShaped) by apply normalizeTimeJs_accepted.
    exact (forEachNoteJs_shape _ _ _ _ _ normalizeDurationJs_shape E1).
Qed.

Lemma normalizeJs_shaped (v v' : JsValue) :
  normalizeJs v = inr v' -> compositionShaped v' = true.
Proof.
  unfold normalizeJs, compositionShaped.
  destruct (forEachNoteJs normalizeDurationJs v) as [e|v1] eqn:E1; [discriminate|].
  intros E2.
  rewrite (forEachNoteJs_shape normalizeTimeJs (fun _ => true) noteShaped v1 v'
             normalizeTimeJs_shape E2).
  pose proof (forEachNoteJs_accepted normalizeTimeJs v1) as Ha.
  rewrite E2 in Ha. simpl in Ha. symmetry in Ha.
  eapply compositionShapedBy_mono; [|exact Ha]. reflexivity.
Qed.

(** Whatever the passes throw is a [TypeError]. *)
Lemma normalizeJs_TypeError (v : JsValue) (e : Thrown) :
  normalizeJs v = inl e -> e = TypeError.
Proof.
  unfold normalizeJs. intros En.
  destruct (forEachNoteJs normalizeDurationJs v) as [e1|v1] eqn:E1.
  - injection En as <-. eapply forEachNoteJs_TypeError; [|exact E1].
    intros n e' Hn.
    destruct n as [|b|x|s|items|props]; simpl in Hn; try discriminate.
    + now injection Hn as <-.
    + destruct (getProp props "duration") as [[|b|x|s|items|ps]|]; discriminate.
  - eapply forEachNoteJs_TypeError; [|exact En]. intros n e' Hn.
    destruct n as [|b|x|s|items|props]; simpl in Hn;
      try (now injection Hn as <-); try discriminate.
    destruct (getProp props "time"), (getProp props "startTime"); discriminate.
Qed.

(** X10: which compositions the handler's two passes accept: exactly the objects
    whose [tracks] is an array of objects whose [notes] are arrays of
    objects (or arrays). On any other value a pass throws, always a
    [TypeError]; an accepted composition still has that shape after the
    passes. Nothing else is checked: no field of a note is required. *)
Theorem normalizeJs_accepts_shape (v : JsValue) :
  match normalizeJs v with
  | inr v' => compositionShaped v = true /\ compositionShaped v' = true
  | inl e => compositionShaped v = false /\ e = TypeError
  end.
Proof.
  pose proof (normalizeJs_accepted v) as Ha.
  destruct (normalizeJs v) as [e|v'] eqn:En; simpl in Ha.
  - split; [now symmetry|]. exact (normalizeJs_TypeError _ _ En).
  - split; [now symmetry|]. now apply normalizeJs_shaped in En.
Qed.

(** ** What the passes change *)

Lemma Forall2_compose {A B C : Type} (R1 : A -> B -> Prop) (R2 : B -> C -> Prop)
    (R : A -> C -> Prop) (l1 : list A) (l2 : list B) (l3 : list C) :
  (forall x y z, R1 x y -> R2 y z -> R x z) ->
  Forall2 R1 l1 l2 -> Forall2 R2 l2 l3 -> Forall2 R l1 l3.
Proof.
  intros HR H1. revert l3.
  induction H1 as [|x y l1 l2 Hxy _ IH]; intros l3 H2; inversion H2; subst;
    constructor; eauto.
Qed.

Ltac other_key := first [discriminate | congruence].

Lemma normalizeNoteJs_spec (n n1 n' : JsValue) :
  normalizeDurationJs n = inr n1 -> normalizeTimeJs n1 = inr n' ->
  noteNormalized n n'.
Proof.
  destruct n as [|b|x|s|items|props]; simpl; try (intros [= <-]; discriminate).
  { intros [= <-] [= <-]. reflexivity. }
  intros H1.
  assert (exists props1,
           n1 = JObject props1 /\
           getProp props1 "duration" =
             match getProp props "duration" with
             | Some (JNumber d) => Some (JString (durationString d))
             | other => other
             end /\
           forall k, k <> "duration" -> getProp props1 k = getProp props k)
    as (props1 & -> & Hd & Hk).
  { destruct (getProp props "duration") as [[|b|x|s|items|ps]|] eqn:Ed;
      injection H1 as <-; eexists; (split; [reflexivity|]);
      try (split; [exact Ed|reflexivity]).
    split; [apply getProp_setProp_eq|].
    intros k Hne. apply getProp_setProp_ne. congruence. }
  clear H1. simpl.
  rewrite (Hk "time"), (Hk "startTime") by other_key.
  destruct (getProp props "time") as [t|] eqn:Et,
           (getProp props "startTime") as [s|] eqn:Es;
    intros [= <-]; simpl; rewrite ?Es, ?Et.
  - repeat split; auto. rewrite Hk by other_key. exact Es.
    rewrite Hk by other_key. exact Et.
  - repeat split.
    + rewrite getProp_deleteProp_ne, getProp_setProp_ne by other_key. exact Hd.
    + rewrite getProp_deleteProp_ne by other_key. apply getProp_setProp_eq.
    + apply getProp_deleteProp_eq.
    + intros k H1 H2 H3.
      rewrite getProp_deleteProp_ne, getProp_setProp_ne by congruence. now apply Hk.
  - repeat split; auto. rewrite Hk by other_key. exact Es.
    rewrite Hk by other_key. exact Et.
  - repeat split; auto. rewrite Hk by other_key. exact Es.
    rewrite Hk by other_key. exact Et.
Qed.

(** The lookups that make a normalised note a fixed point of both passes. *)
Lemma noteNormalized_fixed (n n' : JsValue) :
  noteNormalized n n' ->
  normalizeDurationJs n' = inr n' /\ normalizeTimeJs n' = inr n'.
Proof.
  destruct n as [|b|x|s|items|props], n' as [|b'|x'|s'|items'|props']; simpl;
    try contradiction; [auto|].
  intros (Hd & Hs & Ht & _). rewrite Hd, Hs, Ht. split.
  - now destruct (getProp props "duration") as [[|b|x|s|items|ps]|].
  - destruct (getProp props "startTime") as [s|]; [|reflexivity].
    now destruct (getProp props "time").
Qed.

Lemma mapThrow_fixed {A : Type} (f : A -> Thrown + A) (l : list A) :
  Forall (fun x => f x = inr x) l -> mapThrow f l = inr l.
Proof.
  induction 1 as [|x l Hx _ IH]; simpl; [reflexivity|]. now rewrite Hx, IH.
Qed.

Lemma Forall2_Forall_r {A B : Type} (R : A -> B -> Prop) (P : B -> Prop)
    (l : list A) (l' : list B) :
  (forall x y, R x y -> P y) -> Forall2 R l l' -> Forall P l'.
Proof. intros H. induction 1; constructor; eauto. Qed.

Lemma normalizeTrackJs_spec (t t1 t' : JsValue) :
  forEachNoteOfTrack normalizeDurationJs t = inr t1 ->
  forEachNoteOfTrack normalizeTimeJs t1 = inr t' ->
  trackNormalized t t'.
Proof.
  intros H1 H2.
  apply forEachNoteOfTrack_inr in H1 as (tp & notes & notes1 & -> & En & HF1 & ->).
  apply forEachNoteOfTrack_inr in H2 as (tp1 & ns & notes' & [= <-] & En1 & HF2 & ->).
  rewrite getProp_setProp_eq in En1. injection En1 as <-.
  split; [|split].
  - intros k Hk. simpl. f_equal.
    rewrite !getProp_setProp_ne by congruence. reflexivity.
  - simpl. rewrite getProp_setProp_eq.
    apply forallb_forall. intros n Hn. apply list_elem_of_In in Hn.
    eapply Forall_forall in Hn;
      [|exact (Forall2_Forall_r _ (fun n => noteShaped n = true) _ _
                 normalizeTimeJs_shape HF2)].
    exact Hn.
  - unfold notesOfTrack. simpl. rewrite En, getProp_setProp_eq.
    exact (Forall2_compose _ _ _ _ _ _ normalizeNoteJs_spec HF1 HF2).
Qed.

Lemma trackNormalized_fixed (t t' : JsValue) :
  trackNormalized t t' ->
  forEachNoteOfTrack normalizeDurationJs t' = inr t' /\
  forEachNoteOfTrack normalizeTimeJs t' = inr t'.
Proof.
  intros (_ & Hshape & HF).
  destruct t' as [|b|x|s|items|tp]; simpl in Hshape; try discriminate.
  destruct (getProp tp "notes") as [[|b|x|s|notes'|ps]|] eqn:En; try discriminate.
  unfold notesOfTrack at 2 in HF. simpl in HF. rewrite En in HF.
  assert (Hfix : Forall (fun n => normalizeDurationJs n = inr n /\
                                  normalizeTimeJs n = inr n) notes').
  { exact (Forall2_Forall_r _ _ _ _ noteNormalized_fixed HF). }
  unfold forEachNoteOfTrack. simpl. rewrite En. simpl.
  rewrite !mapThrow_fixed, (setProp_same _ _ _ En);
    [auto|eapply Forall_impl; [exact Hfix|]; now intros n [_ ?]
         |eapply Forall_impl; [exact Hfix|]; now intros n [? _]].
Qed.

Lemma normalizeJs_tracks (v v' : JsValue) :
  normalizeJs v = inr v' ->
  exists props tracks tracks',
    v = JObject props /\ getProp props "tracks" = Some (JArray tracks) /\
    v' = JObject (setProp props "tracks" (JArray tracks')) /\
    Forall2 trackNormalized tracks tracks'.
Proof.
  unfold normalizeJs.
  destruct (forEachNoteJs normalizeDurationJs v) as [e|v1] eqn:E1; [discriminate|].
  intros E2.
  apply forEachNoteJs_inr in E1 as (props & tracks & tracks1 & -> & Et & HF1 & ->).
  apply forEachNoteJs_inr in E2 as (props1 & ts & tracks' & [= <-] & Et1 & HF2 & ->).
  rewrite getProp_setProp_eq in Et1. injection Et1 as <-.
  exists props, tracks, tracks'. split; [reflexivity|]. split; [exact Et|]. split.
  - now rewrite setProp_setProp.
  - exact (Forall2_compose _ _ _ _ _ _ normalizeTrackJs_spec HF1 HF2).
Qed.

(** X11: the handler's passes change the notes and nothing else. An accepted
    composition keeps every key but [tracks] as it was, has as many tracks
    as before, each with every key but [notes] as it was and as many notes
    as before; an array among the notes is left alone, and of a note object
    only three keys may differ: [duration] holds the string of the table
    where it held a number, [startTime] holds what [time] held where
    [startTime] was absent, and [time] is then gone. *)
Theorem normalizeJs_changes_notes_only (v v' : JsValue) :
  normalizeJs v = inr v' ->
  (forall k, k <> "tracks" -> readProp (Some v') k = readProp (Some v) k) /\
  Forall2 (fun t t' =>
             (forall k, k <> "notes" -> readProp (Some t') k = readProp (Some t) k) /\
             Forall2 noteNormalized (notesOfTrack t) (notesOfTrack t'))
          (tracksOfComposition v) (tracksOfComposition v').
Proof.
  intros Hn.
  apply normalizeJs_tracks in Hn as (props & tracks & tracks' & -> & Et & -> & HF).
  split.
  - intros k Hk. simpl. f_equal. apply getProp_setProp_ne. congruence.
  - unfold tracksOfComposition. simpl. rewrite Et, getProp_setProp_eq.
    eapply Forall2_impl; [exact HF|]. intros t t' (Hk & _ & Hnotes). auto.
Qed.

Lemma tracks_fixed (tracks tracks' : list JsValue) :
  Forall2 trackNormalized tracks tracks' ->
  Forall (fun t' => forEachNoteOfTrack normalizeDurationJs t' = inr t' /\
                    forEachNoteOfTrack normalizeTimeJs t' = inr t') tracks'.
Proof. exact (Forall2_Forall_r _ _ _ _ trackNormalized_fixed). Qed.

(** The passes accept their own result and return it unchanged. *)
Lemma normalizeJs_fixed (v v' : JsValue) :
  normalizeJs v = inr v' -> normalizeJs v' = inr v'.
Proof.
  intros Hn.
  apply normalizeJs_tracks in Hn as (props & tracks & tracks' & -> & Et & -> & HF).
  pose proof (tracks_fixed _ _ HF) as Hfix.
  unfold normalizeJs, forEachNoteJs. simpl. rewrite getProp_setProp_eq. simpl.
  rewrite mapThrow_fixed
    by (eapply Forall_impl; [exact Hfix|]; now intros t [? _]).
  rewrite (setProp_same _ _ _ (getProp_setProp_eq props "tracks" _)).
  simpl. rewrite getProp_setProp_eq. simpl.
  rewrite mapThrow_fixed
    by (eapply Forall_impl; [exact Hfix|]; now intros t [_ ?]).
  now rewrite (setProp_same _ _ _ (getProp_setProp_eq props "tracks" _)).
Qed.

(** X12: after the passes no note object holds a number as its [duration], and
    none holds [time] without [startTime]; and the passes are idempotent:
    run on their own result they accept it and return it unchanged. *)
Theorem normalizeJs_idempotent (v v' : JsValue) :
  normalizeJs v = inr v' ->
  normalizeJs v' = inr v' /\
  Forall (fun t' =>
            Forall (fun n' =>
                      forall props', n' = JObject props' ->
                        (forall d, getProp props' "duration" <> Some (JNumber d)) /\
                        (getProp props' "time" <> None ->
                         getProp props' "startTime" <> None))
                   (notesOfTrack t'))
         (tracksOfComposition v').
Proof.
  intros Hn. split; [exact (normalizeJs_fixed _ _ Hn)|].
  apply normalizeJs_tracks in Hn as (props & tracks & tracks' & -> & Et & -> & HF).
  unfold tracksOfComposition. simpl. rewrite getProp_setProp_eq.
  eapply Forall2_Forall_r; [|exact HF].
  intros t t' (_ & _ & Hnotes). simpl.
  eapply Forall2_Forall_r; [|exact Hnotes].
  intros n n' Hnn props' ->.
  destruct n as [|b|x|s|items|ps]; simpl in Hnn; try contradiction.
  destruct Hnn as (Hd & Hs & Ht & _). rewrite Hd, Hs, Ht. split.
  - intros d. now destruct (getProp ps "duration") as [[|b|x|s|items|ps']|].
  - now destruct (getProp ps "startTime").
Qed.

(** ** The typed model and the parsed values *)

Lemma mapM_Forall2 {A B : Type} (dec : A -> option B) (g : B -> B)
    (R : A -> A -> Prop) (l l' : list A) (ys : list B) :
  (forall x x' y, R x x' -> dec x = Some y -> dec x' = Some (g y)) ->
  Forall2 R l l' ->
  mapM dec l = Some ys -> mapM dec l' = Some (g <$> ys).
Proof.
  intros HR HF. revert ys.
  induction HF as [|x x' l l' Hx _ IH]; intros ys; simpl.
  - now intros [= <-].
  - destruct (dec x) as [y|] eqn:Ey; simpl; [|discriminate].
    destruct (mapM dec l) as [ys0|]; simpl; [|discriminate].
    intros [= <-]. rewrite (HR _ _ _ Hx Ey). simpl.
    rewrite (IH ys0 eq_refl). reflexivity.
Qed.

Lemma mapM_forallb {A B : Type} (dec : A -> option B) (ok : A -> bool)
    (l : list A) (ys : list B) :
  (forall x y, dec x = Some y -> ok x = true) ->
  mapM dec l = Some ys -> forallb ok l = true.
Proof.
  intros Hok. revert ys. induction l as [|x l IH]; intros ys; simpl; [reflexivity|].
  destruct (dec x) as [y|] eqn:Ey; simpl; [|discriminate].
  destruct (mapM dec l) as [ys0|]; simpl; [|discriminate].
  intros _. rewrite (Hok _ _ Ey). exact (IH ys0 eq_refl).
Qed.

Lemma decodeNote_object (n : JsValue) (note : MidiNote) :
  decodeNote n = Some note -> noteShaped n = true.
Proof. destruct n; simpl; (discriminate || reflexivity). Qed.

Lemma decodeTrack_shaped (t : JsValue) (tr : MidiTrack) :
  decodeTrack t = Some tr -> trackShapedBy noteShaped t = true.
Proof.
  destruct t as [|b|x|s|items|tp]; simpl; try discriminate.
  destruct (decodeOptString (getProp tp "name")); simpl; [|discriminate].
  destruct (decodeOptNumber (getProp tp "instrument")); simpl; [|discriminate].
  destruct (getProp tp "notes") as [[|b|x|s|notes|ps]|]; simpl; try discriminate.
  destruct (mapM decodeNote notes) as [ns|] eqn:Em; simpl; [|discriminate].
  intros _. exact (mapM_forallb _ _ _ _ decodeNote_object Em).
Qed.

Lemma decodeComposition_shaped (v : JsValue) (c : MidiComposition) :
  decodeComposition v = Some c -> compositionShaped v = true.
Proof.
  destruct v as [|b|x|s|items|props]; simpl; try discriminate.
  destruct (decodeOptNumber (getProp props "bpm")); simpl; [|discriminate].
  destruct (decodeOptNumber (getProp props "tempo")); simpl; [|discriminate].
  destruct (decodeTimeSignature (getProp props "timeSignature")); simpl;
    [|discriminate].
  unfold compositionShaped. simpl.
  destruct (getProp props "tracks") as [[|b|x|s|tracks|ps]|]; simpl; try discriminate.
  destruct (mapM decodeTrack tracks) as [trs|] eqn:Em; simpl; [|discriminate].
  intros _. exact (mapM_forallb _ _ _ _ decodeTrack_shaped Em).
Qed.

Lemma decodeNote_normalized (n n' : JsValue) (note : MidiNote) :
  noteNormalized n n' ->
  decodeNote n = Some note ->
  decodeNote n' = Some (normalizeTime (normalizeDuration note)).
Proof.
  destruct n as [|b|x|s|items|props]; simpl; try discriminate.
  destruct n' as [|b'|x'|s'|items'|props']; try contradiction.
  intros (Hd & Hs & Ht & Hk). simpl.
  rewrite Hd, Hs, Ht, !Hk by discriminate.
  destruct (decodeNumOrStr (getProp props "pitch")) as [p|]; simpl; [|discriminate].
  destruct (decodeOptNumber (getProp props "beat")) as [b|]; simpl; [|discriminate].
  destruct (getProp props "startTime") as [[|b0|s|s0|items|ps]|]; simpl;
    try discriminate;
    destruct (getProp props "time") as [[|b1|t|s1|items1|ps1]|]; simpl;
    try discriminate;
    destruct (getProp props "duration") as [[|b2|d|s2|items2|ps2]|]; simpl;
    try discriminate;
    destruct (decodeOptNumber (getProp props "velocity")) as [vel|]; simpl;
    try discriminate;
    destruct (decodeOptNumber (getProp props "channel")) as [ch|]; simpl;
    try discriminate;
    intros [= <-]; reflexivity.
Qed.

Lemma decodeTrack_normalized (t t' : JsValue) (tr : MidiTrack) :
  trackNormalized t t' ->
  decodeTrack t = Some tr ->
  decodeTrack t' = Some (normalizeTrack tr).
Proof.
  intros (Hk & Hshape & Hnotes).
  destruct t as [|b|x|s|items|tp]; simpl; try discriminate.
  destruct t' as [|b'|x'|s'|items'|tp']; simpl in Hshape; try discriminate.
  assert (Hk' : forall k, k <> "notes" -> getProp tp' k = getProp tp k).
  { intros k Hne. specialize (Hk k Hne). simpl in Hk. congruence. }
  unfold decodeTrack. rewrite (Hk' "name"), (Hk' "instrument") by discriminate.
  destruct (decodeOptString (getProp tp "name")) as [nm|]; simpl; [|discriminate].
  destruct (decodeOptNumber (getProp tp "instrument")) as [ins|]; simpl;
    [|discriminate].
  unfold notesOfTrack in Hnotes. simpl in Hnotes.
  destruct (getProp tp "notes") as [[|b|x|s|notes|ps]|]; simpl; try discriminate.
  destruct (getProp tp' "notes") as [[|b|x|s|notes'|ps]|]; try discriminate.
  destruct (mapM decodeNote notes) as [ns|] eqn:Em; simpl; [|discriminate].
  intros [= <-].
  rewrite (mapM_Forall2 _ _ _ _ _ _ decodeNote_normalized Hnotes Em). reflexivity.
Qed.

Lemma normalizeComposition_tracks (c : MidiComposition) :
  normalizeComposition c =
  {| bpm := bpm c; tempo := tempo c; timeSignature := timeSignature c;
     tracks := normalizeTrack <$> tracks c |}.
Proof.
  unfold normalizeComposition. rewrite forEachNote_compose. reflexivity.
Qed.

(** A parsed composition whose fields have the types of [MidiComposition]
    gets through the passes. *)
Lemma decode_accepted (v : JsValue) (c : MidiComposition) :
  decodeComposition v = Some c -> exists v', normalizeJs v = inr v'.
Proof.
  intros Hdec.
  pose proof (decodeComposition_shaped _ _ Hdec) as Hshape.
  rewrite <- normalizeJs_accepted in Hshape.
  destruct (normalizeJs v) as [e|v'] eqn:En; [discriminate|]. eauto.
Qed.

(** What the passes make of it is the parsed form of the normalised typed
    composition. *)
Lemma decode_normalized (v v' : JsValue) (c : MidiComposition) :
  normalizeJs v = inr v' ->
  decodeComposition v = Some c ->
  decodeComposition v' = Some (normalizeComposition c).
Proof.
  intros En Hdec.
  apply normalizeJs_tracks in En as (props & tracks & tracks' & -> & Et & -> & HF).
  simpl in Hdec |- *.
  rewrite getProp_setProp_eq, !getProp_setProp_ne by discriminate.
  rewrite Et in Hdec.
  destruct (decodeOptNumber (getProp props "bpm")) as [b|]; simpl in *; [|discriminate].
  destruct (decodeOptNumber (getProp props "tempo")) as [t|]; simpl in *;
    [|discriminate].
  destruct (decodeTimeSignature (getProp props "timeSignature")) as [ts|]; simpl in *;
    [|discriminate].
  destruct (mapM decodeTrack tracks) as [trs|] eqn:Em; simpl in *; [|discriminate].
  injection Hdec as <-.
  rewrite (mapM_Forall2 _ _ _ _ _ _ decodeTrack_normalized HF Em). simpl.
  now rewrite normalizeComposition_tracks.
Qed.

(** X13: the typed model of the passes is sound for the parsed compositions it
    stands for: if [v] decodes to the typed composition [c], the handler's
    passes accept [v], and their result decodes to [normalizeComposition c]. *)
Theorem normalizeJs_refines_typed (v : JsValue) (c : MidiComposition) :
  decodeComposition v = Some c ->
  exists v', normalizeJs v = inr v' /\
             decodeComposition v' = Some (normalizeComposition c).
Proof.
  intros Hdec.
  destruct (decode_accepted _ _ Hdec) as [v' Hnorm].
  exists v'. split; [exact Hnorm|].
  exact (decode_normalized _ _ _ Hnorm Hdec).
Qed.

(** ** Tempo, again *)



(** ** The request handler *)

Lemma prepareComposition_create (host : Host) (args : CallTool.Arguments) :
  prepareComposition host "create_midi" args =
  if negb (truthy (CallTool.composition args))
     && negb (truthyString (CallTool.composition_file args))
  then (inl NoComposition, [Started])
  else
    match loadComposition host args with
    | inl r => (inl r, [Started])
    | inr None => (inl (CompositionInvalid TypeError), [Started])
    | inr (Some composition) =>
        match normalizeJs composition with
        | inl e => (inl (CompositionInvalid e), [Started])
        | inr composition' => (inr composition', [Started])
        end
    end.
Proof. reflexivity. Qed.

(** X14: requests turned down before any composition is looked at. A tool name
    other than ["create_midi"] is answered with an error of code
    [MethodNotFound] and no notification at all. For ["create_midi"], when
    [composition] is absent or falsy ([null], [""], [0], [false]) and
    [composition_file] is absent or empty, the answer is an error of code
    [InvalidParams], after the start notification. Neither touches the file
    system. *)
Theorem rejected_before_reading (host : Host) (proc : Process) (fs : FileSystem)
    (toolName : string) (args : CallTool.Arguments) :
  (toolName <> "create_midi" ->
     CallToolHandler host proc fs toolName args =
       Some (ErrorContent (Rejected (UnknownTool toolName)), [], fs) /\
     failureCode (Rejected (UnknownTool toolName)) = MethodNotFound) /\
  (truthy (CallTool.composition args) = false ->
   truthyString (CallTool.composition_file args) = false ->
     CallToolHandler host proc fs "create_midi" args =
       Some (ErrorContent (Rejected NoComposition), [Started], fs) /\
     failureCode (Rejected NoComposition) = InvalidParams).
Proof.
  split.
  - intros Hne. split; [|reflexivity].
    unfold CallToolHandler, prepareComposition.
    now rewrite (proj2 (String.eqb_neq _ _) Hne).
  - intros Hc Hf. split; [|reflexivity].
    unfold CallToolHandler. rewrite prepareComposition_create, Hc, Hf. reflexivity.
Qed.

Example falsy_compositions :
  Forall (fun composition =>
            CallToolHandler Demo.host Sample.proc Sample.disk "create_midi"
              (Demo.request composition None) =
            Some (ErrorContent (Rejected NoComposition), [Started], Sample.disk))
         [None; Some JNull; Some (JString ""); Some (JNumber 0); Some (JBool false)].
Proof. repeat constructor. Qed.

Example unknown_tool :
  CallToolHandler Demo.host Sample.proc Sample.disk "play_midi"
    (Demo.request (Some Demo.song) None) =
  Some (ErrorContent (Rejected (UnknownTool "play_midi")), [], Sample.disk).
Proof. reflexivity. Qed.

(** X15: when [composition_file] is given (a non-empty string), [composition]
    is not looked at: the handler answers the same whatever it holds. And
    when the file cannot be read, or what it holds is not JSON, the answer
    is an error of code [InvalidParams], even if [composition] holds a
    composition that would have been accepted. *)
Theorem composition_file_takes_precedence (host : Host) (proc : Process)
    (fs : FileSystem) (toolName : string) (args : CallTool.Arguments) :
  truthyString (CallTool.composition_file args) = true ->
  (forall other,
     CallToolHandler host proc fs toolName (withComposition args other) =
     CallToolHandler host proc fs toolName args) /\
  (forall file,
     CallTool.composition_file args = Some file ->
     readFileSync host file = None \/
     (exists fileContent, readFileSync host file = Some fileContent /\
                          JSON_parse host fileContent = None) ->
     CallToolHandler host proc fs "create_midi" args =
       Some (ErrorContent (Rejected CompositionFileUnreadable), [Started], fs) /\
     failureCode (Rejected CompositionFileUnreadable) = InvalidParams).
Proof.
  intros Ht. split.
  - intros other. unfold CallToolHandler, prepareComposition, loadComposition.
    simpl. rewrite Ht, !andb_false_r. reflexivity.
  - intros file Hfile Hbad. split; [|reflexivity].
    unfold CallToolHandler. rewrite prepareComposition_create.
    unfold loadComposition. rewrite Ht, andb_false_r, Hfile.
    destruct Hbad as [Hr|(fileContent & Hr & Hp)]; rewrite Hr; [reflexivity|].
    now rewrite Hp.
Qed.

(** X16: the three ways to hand over a composition agree: a composition given
    as a (non-empty) JSON string, or through a file holding JSON, is
    treated as the object of that JSON given directly. *)
Theorem composition_sources_agree (host : Host) (proc : Process) (fs : FileSystem)
    (args : CallTool.Arguments) (text : string) (props : list (string * JsValue)) :
  JSON_parse host text = Some (JObject props) ->
  (CallTool.composition_file args = None ->
   CallTool.composition args = Some (JString text) ->
   text <> "" ->
     CallToolHandler host proc fs "create_midi" args =
     CallToolHandler host proc fs "create_midi"
       (withComposition args (Some (JObject props)))) /\
  (forall file,
     CallTool.composition_file args = Some file -> file <> "" ->
     readFileSync host file = Some text ->
     CallToolHandler host proc fs "create_midi" args =
     CallToolHandler host proc fs "create_midi"
       (withoutFile (withComposition args (Some (JObject props))))).
Proof.
  intros Hparse. split.
  - intros Hfile Hcomp Hne.
    unfold CallToolHandler. rewrite !prepareComposition_create.
    unfold loadComposition. simpl. rewrite Hfile, Hcomp. simpl.
    rewrite (proj2 (String.eqb_neq _ _) Hne), Hparse. reflexivity.
  - intros file Hfile Hfne Hread.
    unfold CallToolHandler. rewrite !prepareComposition_create.
    unfold loadComposition. simpl. rewrite Hfile. simpl.
    rewrite (proj2 (String.eqb_neq _ _) Hfne), andb_false_r, Hread, Hparse.
    reflexivity.
Qed.

(** X17: a composition given as a string that is not JSON is turned down with
    an error of code [InvalidParams], after the start notification; the
    file system is left as it was. *)
Theorem unparsable_string_rejected (host : Host) (proc : Process) (fs : FileSystem)
    (args : CallTool.Arguments) (text : string) :
  String.eqb text "" = false ->
  CallTool.composition_file args = None ->
  CallTool.composition args = Some (JString text) ->
  JSON_parse host text = None ->
  CallToolHandler host proc fs "create_midi" args =
    Some (ErrorContent (Rejected (CompositionInvalid SyntaxError)), [Started], fs) /\
  failureCode (Rejected (CompositionInvalid SyntaxError)) = InvalidParams.
Proof.
  intros Hne Hfile Hcomp Hparse. split; [|reflexivity].
  unfold CallToolHandler. rewrite prepareComposition_create.
  unfold loadComposition. rewrite Hfile, Hcomp. simpl.
  now rewrite Hne, Hparse.
Qed.

(** X18: which compositions the handler turns down: a composition object given
    directly is rejected, with an error of code [InvalidParams], after the
    start notification and before anything is written, exactly when it is
    not an object whose [tracks] is an array of objects whose [notes] are
    arrays of objects or arrays. A composition of that shape is never
    rejected, whatever its notes hold or lack. *)
Theorem ill_shaped_composition_rejected (host : Host) (proc : Process)
    (fs : FileSystem) (args : CallTool.Arguments) (props : list (string * JsValue)) :
  CallTool.composition_file args = None ->
  CallTool.composition args = Some (JObject props) ->
  (compositionShaped (JObject props) = false ->
     CallToolHandler host proc fs "create_midi" args =
       Some (ErrorContent (Rejected (CompositionInvalid TypeError)), [Started], fs) /\
     failureCode (Rejected (CompositionInvalid TypeError)) = InvalidParams) /\
  (compositionShaped (JObject props) = true ->
     exists v', prepareComposition host "create_midi" args = (inr v', [Started]) /\
                normalizeJs (JObject props) = inr v').
Proof.
  intros Hfile Hcomp.
  pose proof (normalizeJs_accepted (JObject props)) as Ha.
  assert (Hprep : prepareComposition host "create_midi" args =
                  match normalizeJs (JObject props) with
                  | inl e => (inl (CompositionInvalid e), [Started])
                  | inr v' => (inr v', [Started])
                  end).
  { rewrite prepareComposition_create. unfold loadComposition.
    now rewrite Hfile, Hcomp. }
  split.
  - intros Hs. split; [|reflexivity]. rewrite Hs in Ha.
    unfold CallToolHandler. rewrite Hprep.
    destruct (normalizeJs (JObject props)) as [e|v'] eqn:En; [|discriminate].
    now rewrite (normalizeJs_TypeError _ _ En).
  - intros Hs. rewrite Hs in Ha. rewrite Hprep.
    destruct (normalizeJs (JObject props)) as [e|v'] eqn:En; [discriminate|].
    eauto.
Qed.

Lemma createMidiFile_Throw (proc : Process) (fs fs' : FileSystem) (title : string)
    (c : MidiComposition) (p : string) (e : McpError) :
  createMidiFile proc fs title c p = (Throw e, fs') ->
  exists cause, e = mcpError InternalError cause.
Proof.
  unfold createMidiFile.
  destruct (resolveOutputPath proc fs p) as [e0|[out fs1]].
  - intros [= <- <-]. eauto.
  - destruct (Fs.writeFileSync fs1 out _); [|discriminate].
    intros [= <- <-]. eauto.
Qed.

Lemma loadComposition_rejection (host : Host) (args : CallTool.Arguments)
    (r : Rejection) :
  loadComposition host args = inl r -> rejectionCode r = InvalidParams.
Proof.
  unfold loadComposition.
  destruct (truthyString (CallTool.composition_file args)).
  - destruct (CallTool.composition_file args) as [file|]; [|now intros [= <-]].
    destruct (readFileSync host file) as [fileContent|]; [|now intros [= <-]].
    destruct (JSON_parse host fileContent); [discriminate|now intros [= <-]].
  - destruct (CallTool.composition args) as [[|b|x|s|items|ps]|]; try discriminate.
    destruct (JSON_parse host s); [discriminate|now intros [= <-]].
Qed.

Lemma prepareComposition_rejects (host : Host) (toolName : string)
    (args : CallTool.Arguments) (rej : Rejection) (sent : list Notification) :
  prepareComposition host toolName args = (inl rej, sent) ->
  sent = [] /\ rej = UnknownTool toolName /\ toolName <> "create_midi" \/
  sent = [Started] /\ toolName = "create_midi" /\ rejectionCode rej = InvalidParams.
Proof.
  unfold prepareComposition.
  destruct (String.eqb_spec toolName "create_midi") as [->|Hne]; simpl.
  - intros H. right.
    destruct (negb (truthy (CallTool.composition args))
              && negb (truthyString (CallTool.composition_file args))).
    { injection H as <- <-. auto. }
    destruct (loadComposition host args) as [r0|[v0|]] eqn:El.
    + injection H as <- <-. apply loadComposition_rejection in El. auto.
    + destruct (normalizeJs v0); [|discriminate]. injection H as <- <-. auto.
    + injection H as <- <-. auto.
  - intros [= <- <-]. left. auto.
Qed.

Lemma prepareComposition_accepts (host : Host) (toolName : string)
    (args : CallTool.Arguments) (v' : JsValue) (sent : list Notification) :
  prepareComposition host toolName args = (inr v', sent) ->
  sent = [Started] /\ toolName = "create_midi" /\
  exists v, loadComposition host args = inr (Some v) /\ normalizeJs v = inr v'.
Proof.
  unfold prepareComposition.
  destruct (String.eqb_spec toolName "create_midi") as [->|Hne]; simpl;
    [|discriminate].
  destruct (negb (truthy (CallTool.composition args))
            && negb (truthyString (CallTool.composition_file args)));
    [discriminate|].
  destruct (loadComposition host args) as [r0|[v0|]]; try discriminate.
  destruct (normalizeJs v0) as [e|v1] eqn:En; [discriminate|].
  intros [= <- <-]. eauto.
Qed.

(** X19: what a call leaves behind, whenever the handler is defined. A
    successful answer names the title it was given and a path that now
    holds the encoding of the tracks built from the request's own
    composition (the one given, parsed or read from the file) after the
    two passes, and the notifications sent are the start, one for each of
    its tracks, and the completion, in that order. An answer with
    [isError] never comes with the completion notification: one from
    before [createMidiFile] leaves the file system untouched and has sent
    at most the start notification, one from [createMidiFile] is an
    [InternalError] and comes after the start notification. *)
Theorem handler_outcomes (host : Host) (proc : Process) (fs fs' : FileSystem)
    (toolName : string) (args : CallTool.Arguments) (r : CallToolResult)
    (log : list Notification) :
  CallToolHandler host proc fs toolName args = Some (r, log, fs') ->
  match r with
  | Content title midiFilePath =>
      toolName = "create_midi" /\ title = CallTool.title args /\
      exists v v' c,
        loadComposition host args = inr (Some v) /\
        normalizeJs v = inr v' /\
        decodeComposition v' = Some c /\
        Fs.files fs' !! midiFilePath = Some (MidiWriter.buildFile (buildTracks c)) /\
        log = [Started] ++ snd (processMidiComposition c) ++ [Completed] /\
        length log = length (tracks c) + 2
  | ErrorContent (Rejected rej) =>
      fs' = fs /\ (Completed ∉ log) /\
      (log = [] /\ rej = UnknownTool toolName /\ toolName <> "create_midi" \/
       log = [Started] /\ toolName = "create_midi" /\ rejectionCode rej = InvalidParams)
  | ErrorContent (Failed e) =>
      toolName = "create_midi" /\
      failureCode (Failed e) = InternalError /\
      head log = Some Started /\ (Completed ∉ log)
  end.
Proof.
  unfold CallToolHandler.
  destruct (prepareComposition host toolName args) as [[rej|v'] sent] eqn:Ep.
  - intros [= <- <- <-]. split; [reflexivity|].
    apply prepareComposition_rejects in Ep. split; [|exact Ep].
    destruct Ep as [(-> & _)|(-> & _)]; [apply not_elem_of_nil|].
    intros H. apply list_elem_of_singleton in H. discriminate.
  - apply prepareComposition_accepts in Ep as (-> & -> & v & Hload & Hnorm).
    destruct (decodeComposition v') as [c|] eqn:Ed; simpl; [|discriminate].
    destruct (createMidiFile proc fs (CallTool.title args) c
                (CallTool.output_path args)) as [[out|e] fs1] eqn:Ec.
    + intros [= <- <- <-]. split; [reflexivity|]. split; [reflexivity|].
      exists v, v', c. split; [exact Hload|]. split; [exact Hnorm|].
      split; [exact Ed|].
      destruct (createMidiFile_Ok _ _ _ _ _ _ _ Ec) as (g & _ & _ & Hf).
      split; [rewrite Hf; apply lookup_insert_eq|]. split; [reflexivity|].
      unfold processMidiComposition. simpl.
      rewrite length_app, length_imap. simpl. lia.
    + intros [= <- <- <-]. split; [reflexivity|].
      destruct (createMidiFile_Throw _ _ _ _ _ _ _ Ec) as [cause ->].
      split; [reflexivity|]. split; [reflexivity|].
      unfold processMidiComposition. simpl.
      intros Hin. apply elem_of_cons in Hin as [Hin|Hin]; [discriminate|].
      apply elem_of_lookup_imap in Hin as (i & t & Hin & _). discriminate.
Qed.

(** ** The last progress notification *)

Section LastProgress.
Local Open Scope Z_scope.

Lemma digits2_lower (m : positive) : 2 ^ (Zpos (SpecFloat.digits2_pos m) - 1) <= Zpos m.
Proof.
  induction m as [m IH|m IH|]; simpl SpecFloat.digits2_pos.
  - rewrite Pos2Z.inj_succ.
    replace (Z.succ (Zpos (SpecFloat.digits2_pos m)) - 1)
      with (Z.succ (Zpos (SpecFloat.digits2_pos m) - 1)) by lia.
    rewrite Z.pow_succ_r by lia. lia.
  - rewrite Pos2Z.inj_succ.
    replace (Z.succ (Zpos (SpecFloat.digits2_pos m)) - 1)
      with (Z.succ (Zpos (SpecFloat.digits2_pos m) - 1)) by lia.
    rewrite Z.pow_succ_r by lia. lia.
  - simpl. lia.
Qed.

Lemma digits2_shift (m k : positive) :
  SpecFloat.digits2_pos (Pos.iter xO m k) = (SpecFloat.digits2_pos m + k)%positive.
Proof.
  induction k as [|k IH] using Pos.peano_ind.
  - simpl. lia.
  - rewrite Pos.iter_succ. simpl. rewrite IH. lia.
Qed.

(** A mantissa of 53 bits with an exponent in range is not rounded. *)
Lemma binary_round_aux_exact (m : positive) (e : Z) :
  Zpos (SpecFloat.digits2_pos m) = 53 -> -1074 <= e <= 971 ->
  SpecFloat.binary_round_aux prec emax false (Zpos m) e SpecFloat.loc_Exact =
  S754_finite false m e.
Proof.
  intros Hd He.
  assert (Hshr : SpecFloat.shr_fexp prec emax (Zpos m) e SpecFloat.loc_Exact =
                 ({| SpecFloat.shr_m := Zpos m; SpecFloat.shr_r := false;
                     SpecFloat.shr_s := false |}, e)).
  { unfold SpecFloat.shr_fexp, SpecFloat.Zdigits2, SpecFloat.fexp, SpecFloat.emin.
    rewrite Hd.
    replace (Z.max (53 + e - prec) (3 - emax - prec) - e) with 0
      by (unfold prec, emax; lia).
    reflexivity. }
  unfold SpecFloat.binary_round_aux. rewrite Hshr. simpl SpecFloat.shr_m.
  simpl SpecFloat.loc_of_shr_record. simpl SpecFloat.round_nearest_even.
  rewrite Hshr. simpl SpecFloat.shr_m.
  destruct (Z.leb_spec e (emax - prec)) as [_|H]; [reflexivity|].
  unfold prec, emax in H. lia.
Qed.

(** The float of a positive integer below [2^53] is finite. *)
Lemma Number_of_Z_finite (p : positive) :
  Zpos p < 2 ^ 53 ->
  exists m e, Prim2SF (JS.Number_of_Z (Zpos p)) = S754_finite false m e.
Proof.
  intros Hp. unfold JS.Number_of_Z. rewrite of_uint63_spec, Uint63.of_Z_spec.
  assert (H63 : (2 ^ 53 < wB)%Z) by reflexivity.
  rewrite Z.mod_small by lia.
  unfold SpecFloat.binary_normalize, SpecFloat.binary_round.
  pose proof (digits2_bound p) as Hup.
  pose proof (digits2_lower p) as Hlow.
  set (d := SpecFloat.digits2_pos p) in *.
  assert (Hd : Zpos d <= 53).
  { destruct (Z.le_gt_cases (Zpos d) 53) as [H|H]; [exact H|].
    assert (2 ^ 53 <= 2 ^ (Zpos d - 1)) by (apply Z.pow_le_mono_r; lia). lia. }
  unfold SpecFloat.shl_align, SpecFloat.fexp, SpecFloat.emin.
  replace (Z.max (Zpos d + 0 - prec) (3 - emax - prec) - 0) with (Zpos d - 53)
    by (unfold prec, emax; lia).
  destruct (Zpos d - 53) as [|k|k] eqn:Ek; [|lia|].
  - exists p, 0. apply binary_round_aux_exact; [fold d|]; lia.
  - exists (Pos.iter xO p k), (Z.max (Zpos d + 0 - prec) (3 - emax - prec)).
    apply binary_round_aux_exact.
    + rewrite digits2_shift. fold d. lia.
    + unfold prec, emax. lia.
Qed.

(** [x / x] is 1 for every finite [x] other than the zeros. *)
Lemma div_self (x : float) (s : bool) (m : positive) (e : Z) :
  Prim2SF x = S754_finite s m e -> (x / x)%float = 1%float.
Proof.
  intros Hx. apply Prim2SF_inj. rewrite div_spec, Hx.
  unfold SF64div, SpecFloat.SFdiv, SpecFloat.SFdiv_core_binary.
  replace (SpecFloat.Zdigits2 (Zpos m) + e - (SpecFloat.Zdigits2 (Zpos m) + e))
    with 0 by lia.
  replace (e - e) with 0 by lia.
  replace (Z.min (SpecFloat.fexp prec emax 0) 0) with (-53) by reflexivity.
  replace (0 - -53) with 53 by reflexivity.
  assert (Hdiv : Z.div_eucl (Z.shiftl (Zpos m) 53) (Zpos m) = (2 ^ 53, 0)).
  { rewrite Z.shiftl_mul_pow2 by lia.
    pose proof (Z.div_eucl_eq (Zpos m * 2 ^ 53) (Zpos m) ltac:(lia)) as Heq.
    pose proof (Z.mod_pos_bound (Zpos m * 2 ^ 53) (Zpos m) ltac:(lia)) as Hb.
    unfold Z.modulo in Hb.
    destruct (Z.div_eucl (Zpos m * 2 ^ 53) (Zpos m)) as [q r].
    assert (Hr : r = 0).
    { assert (Hm : (Zpos m * 2 ^ 53) mod Zpos m = 0)
        by (rewrite Z.mul_comm; apply Z.mod_mul; lia).
      assert (Hr' : (Zpos m * q + r) mod Zpos m = r).
      { rewrite Z.add_comm, Z.mul_comm, Z.mod_add by lia. now apply Z.mod_small. }
      rewrite <- Heq in Hr'. congruence. }
    subst r. f_equal. nia. }
  rewrite Hdiv.
  replace (SpecFloat.new_location (Zpos m) 0) with SpecFloat.loc_Exact
    by (unfold SpecFloat.new_location; now destruct (Z.even (Zpos m))).
  rewrite xorb_nilpotent. vm_compute. reflexivity.
Qed.

(** After the last of [n] tracks the progress is exactly 100. *)
Lemma trackProgress_last (n : nat) :
  (0 < n)%nat -> Z.of_nat n < 2 ^ 53 -> trackProgress n n = 100%float.
Proof.
  intros Hpos Hn. unfold trackProgress.
  destruct (Z.of_nat n) as [|p|p] eqn:Ep; [lia| |lia].
  destruct (Number_of_Z_finite p Hn) as (m & e & Hfin).
  rewrite (div_self _ _ _ _ Hfin). vm_compute. reflexivity.
Qed.

End LastProgress.

Example trackProgress_examples :
  trackProgress 1 3 = 33%float /\ trackProgress 2 3 = 66%float /\
  trackProgress 3 3 = 100%float.
Proof. vm_compute. repeat split. Qed.

(** X21: the progress reported after the last track is exactly 100, however
    many tracks the composition has (fewer than [2^32], as many as an
    array can hold): [n / n] is 1 for every such [n], and
    [Math.floor(1 * 100)] is 100. The progress reported after an earlier
    track can be one less than the percentage: after 29 of 100 tracks it
    is 28. *)
Theorem last_track_reports_100 (c : MidiComposition) :
  (0 < length (tracks c))%nat ->
  (Z.of_nat (length (tracks c)) < 2 ^ 32)%Z ->
  last (snd (processMidiComposition c)) =
    Some (TrackProgress 100 (length (tracks c)) (length (tracks c))) /\
  trackProgress 29 100 = 28%float.
Proof.
  intros Hpos Hlen. split; [|vm_compute; reflexivity].
  unfold processMidiComposition. simpl.
  set (l := tracks c) in *. clearbody l.
  induction l as [|t0 rest _] using rev_ind; [simpl in Hpos; lia|].
  rewrite imap_app. simpl. rewrite last_snoc.
  rewrite length_app in *. simpl in *. rewrite Nat.add_0_r.
  replace (S (length rest)) with (length rest + 1)%nat by lia.
  rewrite trackProgress_last; [reflexivity|lia|].
  eapply Z.lt_trans; [exact Hlen|reflexivity].
Qed.

(** ** Witnesses *)

Lemma beat_wait_formula_witness :
  exists track,
    buildTracks Sample.song !! 0 = Some track /\
    MidiWriter.addEvent (noteEvent Sample.song 0 Sample.beatNote) ∈ track /\
    eventWait (noteEvent Sample.song 0 Sample.beatNote) =
    "T" +:+ JS.Number_toString
              (JS.Math_round (((2.5 - 1) * 128) / ToNumber (bpm Sample.song))%float).
Proof.
  apply (beat_wait_formula Sample.song 0 0 Sample.beatNote 2.5); reflexivity.
Defined.

Lemma beat_takes_precedence_witness :
  eventWait (noteEvent Sample.song 0 Sample.beatNote) = "T2" /\
  (forall s' t',
     eventWait (noteEvent Sample.song 0 (withStartTime Sample.beatNote s' t'))
     = "T2").
Proof.
  destruct (beat_takes_precedence Sample.song 0 0 Sample.beatNote 2.5 8
              eq_refl eq_refl eq_refl) as (_ & _ & _ & _ & Hx & Hany).
  assert (H : eventWait (noteEvent Sample.song 0 Sample.beatNote) = "T2").
  { rewrite (Hx 120%float eq_refl). vm_compute. reflexivity. }
  split; [exact H|]. intros s' t'. rewrite Hany. exact H.
Defined.

Lemma numeric_duration_table_witness :
  exists note' s,
    noteAt (normalizeComposition Sample.song) 0 1 = Some note' /\
    duration note' = Str s /\ s = "16".
Proof.
  destruct (numeric_duration_table Sample.song 0 1 Sample.legacyNote 0.25
              eq_refl eq_refl)
    as (note' & s & Hat & Hd & _ & H16 & _).
  exists note', s. split; [exact Hat|]. split; [exact Hd|]. apply H16. reflexivity.
Defined.

Lemma time_alias_normalized_witness :
  exists note',
    noteAt (normalizeComposition Sample.song) 0 1 = Some note' /\
    startTime note' = Some 2%float /\ time note' = None.
Proof.
  destruct (time_alias_normalized Sample.song 0 1 Sample.legacyNote eq_refl)
    as (note' & Hat & Htime & _).
  exists note'. split; [exact Hat|]. apply Htime; reflexivity.
Defined.

Lemma startTime_wait_formula_witness :
  eventWait (noteEvent Sample.song 0 Sample.startNote) = "T2".
Proof.
  destruct (startTime_wait_formula Sample.song 0 2 Sample.startNote 3
              eq_refl eq_refl eq_refl eq_refl) as (_ & _ & _ & H & _).
  exact H.
Defined.


Lemma encoding_is_deterministic_witness :
  Fs.files Sample.savedTwice !! "/home/u/copy.mid" =
  Fs.files Sample.savedOnce !! "/home/u/midi-files/song.mid".
Proof.
  apply (encoding_is_deterministic Sample.proc Sample.bare
           Sample.disk Sample.savedOnce Sample.savedOnce Sample.savedTwice
           "Song" "Copy" "song.mid" "/home/u/copy.mid"
           "/home/u/midi-files/song.mid" "/home/u/copy.mid" Sample.song);
    vm_compute; reflexivity.
Defined.

Lemma channel_in_range_witness :
  validChannel (eventChannel (noteEvent Sample.song 0 Sample.startNote)) = true.
Proof.
  destruct (channel_in_range Sample.song 0 2 Sample.startNote eq_refl)
    as (_ & _ & _ & H); [split; vm_compute; reflexivity|exact H].
Defined.

Lemma chunkArray_concat_witness :
  concat (Batch.chunkArray [1; 2; 3; 4; 5] 2) = [1; 2; 3; 4; 5].
Proof.
  destruct (chunkArray_concat [1; 2; 3; 4; 5] 2) as [H _]; [lia|exact H].
Defined.

Lemma chunkArray_chunks_witness :
  length (Batch.chunkArray [1; 2; 3; 4; 5] 2) = 3.
Proof.
  destruct (chunkArray_chunks [1; 2; 3; 4; 5] 2) as [H _]; [lia|exact H].
Defined.

Lemma createMidiFile_frame_witness :
  Fs.files (snd (createMidiFile Sample.proc Sample.disk "Song" Sample.song
                   "song.mid")) =
  <["/home/u/midi-files/song.mid" := MidiWriter.buildFile (buildTracks Sample.song)]>
    (Fs.files Sample.disk).
Proof.
  destruct (createMidiFile_frame Sample.proc Sample.disk
              (snd (createMidiFile Sample.proc Sample.disk "Song" Sample.song
                      "song.mid"))
              "Song" Sample.song "song.mid" "/home/u/midi-files/song.mid")
    as [H _]; [vm_compute; reflexivity|exact H].
Defined.

Lemma absolute_path_needs_its_directory_witness :
  exists cause,
    createMidiFile Sample.proc Sample.disk "Song" Sample.song "/nowhere/song.mid" =
    (Throw (mcpError InternalError cause), Sample.disk).
Proof.
  apply (absolute_path_needs_its_directory Sample.proc Sample.disk "Song"
           Sample.song "/nowhere/song.mid");
    [reflexivity|vm_compute; reflexivity|].
  left. apply (proj1 (bool_decide_eq_false _)). vm_compute. reflexivity.
Defined.

Lemma tracks_built_in_order_witness :
  exists built,
    Fs.files (snd (createMidiFile Sample.proc Sample.disk "Song" Sample.song
                     "song.mid")) !! "/home/u/midi-files/song.mid" =
      Some (MidiWriter.buildFile built) /\
    length built = 1.
Proof.
  destruct (tracks_built_in_order Sample.proc Sample.disk
              (snd (createMidiFile Sample.proc Sample.disk "Song" Sample.song
                      "song.mid"))
              "Song" Sample.song "song.mid" "/home/u/midi-files/song.mid")
    as (built & Hfile & Hlen & _); [vm_compute; reflexivity|].
  exists built. split; [exact Hfile|exact Hlen].
Defined.

Lemma beat_without_bpm_witness :
  eventWait (noteEvent (withTempo Sample.song None (Some 90%float)) 0 Sample.beatNote)
  = "TNaN".
Proof.
  destruct (beat_without_bpm (withTempo Sample.song None (Some 90%float)) 0 0
              Sample.beatNote 2.5 eq_refl eq_refl eq_refl) as [H _].
  exact H.
Defined.

Lemma normalizeJs_changes_notes_only_witness :
  readProp (Some Demo.normalized) "bpm" = readProp (Some Demo.song) "bpm" /\
  Forall2 (fun t t' =>
             (forall k, k <> "notes" -> readProp (Some t') k = readProp (Some t) k) /\
             Forall2 noteNormalized (notesOfTrack t) (notesOfTrack t'))
          (tracksOfComposition Demo.song) (tracksOfComposition Demo.normalized).
Proof.
  destruct (normalizeJs_changes_notes_only Demo.song Demo.normalized) as [H1 H2];
    [vm_compute; reflexivity|].
  split; [apply H1; discriminate|exact H2].
Defined.

Lemma normalizeJs_idempotent_witness :
  normalizeJs Demo.normalized = inr Demo.normalized.
Proof.
  destruct (normalizeJs_idempotent Demo.song Demo.normalized) as [H _];
    [vm_compute; reflexivity|exact H].
Defined.

Lemma normalizeJs_refines_typed_witness :
  exists v', normalizeJs Demo.song = inr v' /\
             decodeComposition v' = Some (normalizeComposition Sample.song).
Proof.
  apply (normalizeJs_refines_typed Demo.song Sample.song). vm_compute. reflexivity.
Defined.

Lemma composition_file_takes_precedence_witness :
  CallToolHandler Demo.host Sample.proc Sample.disk "create_midi"
    (Demo.request (Some Demo.song) (Some "/home/u/missing.json")) =
  Some (ErrorContent (Rejected CompositionFileUnreadable), [Started], Sample.disk).
Proof.
  destruct (composition_file_takes_precedence Demo.host Sample.proc Sample.disk
              "create_midi"
              (Demo.request (Some Demo.song) (Some "/home/u/missing.json")) eq_refl)
    as [_ H].
  destruct (H "/home/u/missing.json" eq_refl) as [H1 _];
    [left; reflexivity|exact H1].
Defined.

Lemma composition_sources_agree_witness :
  CallToolHandler Demo.host Sample.proc Sample.disk "create_midi"
    (Demo.request (Some (JString "{}")) None) =
  CallToolHandler Demo.host Sample.proc Sample.disk "create_midi"
    (withComposition (Demo.request (Some (JString "{}")) None) (Some (JObject []))).
Proof.
  destruct (composition_sources_agree Demo.host Sample.proc Sample.disk
              (Demo.request (Some (JString "{}")) None) "{}" [] eq_refl) as [H _].
  apply H; [reflexivity|reflexivity|discriminate].
Defined.

Lemma unparsable_string_rejected_witness :
  CallToolHandler Demo.host Sample.proc Sample.disk "create_midi"
    (Demo.request (Some (JString "not json")) None) =
  Some (ErrorContent (Rejected (CompositionInvalid SyntaxError)), [Started],
        Sample.disk).
Proof.
  destruct (unparsable_string_rejected Demo.host Sample.proc Sample.disk
              (Demo.request (Some (JString "not json")) None) "not json"
              eq_refl eq_refl eq_refl eq_refl) as [H _].
  exact H.
Defined.

Lemma ill_shaped_composition_rejected_witness :
  CallToolHandler Demo.host Sample.proc Sample.disk "create_midi"
    (Demo.request (Some Demo.noNotes) None) =
  Some (ErrorContent (Rejected (CompositionInvalid TypeError)), [Started],
        Sample.disk).
Proof.
  destruct (ill_shaped_composition_rejected Demo.host Sample.proc Sample.disk
              (Demo.request (Some Demo.noNotes) None)
              [("tracks", JArray [JObject [("name", JString "Piano")]])]
              eq_refl eq_refl) as [H _].
  destruct (H eq_refl) as [H1 _]. exact H1.
Defined.

Lemma handler_outcomes_witness :
  exists v v' c,
    loadComposition Demo.host (Demo.request (Some Demo.song) None) = inr (Some v) /\
    normalizeJs v = inr v' /\
    decodeComposition v' = Some c /\
    Fs.files Sample.savedOnce !! "/home/u/midi-files/song.mid" =
      Some (MidiWriter.buildFile (buildTracks c)) /\
    Demo.sent = [Started] ++ snd (processMidiComposition c) ++ [Completed] /\
    length Demo.sent = length (tracks c) + 2.
Proof.
  destruct (handler_outcomes Demo.host Sample.proc Sample.disk Sample.savedOnce
              "create_midi" (Demo.request (Some Demo.song) None)
              (Content "Song" "/home/u/midi-files/song.mid") Demo.sent)
    as (_ & _ & H); [vm_compute; reflexivity|exact H].
Defined.

Lemma last_track_reports_100_witness :
  last (snd (processMidiComposition Sample.song)) = Some (TrackProgress 100 1 1).
Proof.
  destruct (last_track_reports_100 Sample.song) as [H _];
    [simpl; lia|reflexivity|exact H].
Defined.
